(** * Carrier Integration Service: OAuth token manager, UPS adapter, facade

    A shallow embedding of the TypeScript sources

    - [domain/errors.ts], [domain/types.ts], [domain/validation.ts]
    - [http/client.ts]      (the [HttpClient] interface)
    - [auth/oauth.ts]       ([OAuthClient])
    - [carriers/ups/adapter.ts], [carriers/ups/types.ts]  ([UPSAdapter])
    - [service.ts]          ([CarrierIntegrationService])

    followed by the properties of the token cache, of the 401 retry, of the
    response classification and of the multi-carrier aggregation.

    Conventions.  A TypeScript optional field [f?: T] is an [option T]
    ([None] is JavaScript's [undefined]).  Strings hold their text in
    UTF-8.  Instants and durations are integer milliseconds
    ([Date.now()]).  An [async] function is cut at its [await]s:
    the code between two [await]s runs without interruption, as the
    JavaScript event loop runs it. *)

From Stdlib Require Import ZArith NArith QArith List String Ascii Bool Lia.
From Stdlib Require Import DecimalString.
Import ListNotations.

#[local] Open Scope string_scope.
#[local] Open Scope Z_scope.

(* ===================================================================== *)
(** ** JavaScript values used by the sources *)
(* ===================================================================== *)

Module Js.

(** Truthiness of an optional string: [undefined] and the empty string are
    falsy. *)
Definition truthy_string (o : option string) : bool :=
  match o with
  | Some EmptyString => false
  | Some _ => true
  | None => false
  end.

(** Truthiness of an optional number: [undefined] and [0] are falsy. *)
Definition truthy_number (o : option Z) : bool :=
  match o with
  | Some 0 => false
  | Some _ => true
  | None => false
  end.

(** [a || b] on optional strings: [a] when truthy, else [b]. *)
Definition or_string (a b : option string) : option string :=
  if truthy_string a then a else b.

(** [a || 'literal']. *)
Definition or_default (a : option string) (d : string) : string :=
  match a with
  | Some s => if truthy_string a then s else d
  | None => d
  end.

(** [`${n}`] for an integer [n]. *)
Definition number_to_string (n : Z) : string :=
  NilZero.string_of_int (Z.to_int n).

(** Integer-valued numbers with [NaN], as produced by [Date] arithmetic. *)
Inductive Number : Type :=
| NaN
| Int (z : Z).

Definition sub (a b : Number) : Number :=
  match a, b with
  | Int x, Int y => Int (x - y)
  | _, _ => NaN
  end.

(** [Math.ceil(a / d)] for a positive integer constant [d]; the quotient is
    taken exactly. *)
Definition ceil_div (a : Number) (d : Z) : Number :=
  match a with
  | Int x => Int (- ((- x) / d))
  | NaN => NaN
  end.

(** [a < k]: every comparison with [NaN] is false. *)
Definition lt_const (a : Number) (k : Z) : bool :=
  match a with
  | Int x => x <? k
  | NaN => false
  end.

(** The value of [parseFloat] when it is not [NaN]: a signed decimal
    [digits * 10 ^ exp10], or an infinity.  (The rounding to a double is
    not represented.) *)
Inductive Decimal : Type :=
| Infinite (negative : bool)
| Finite (negative : bool) (digits : N) (exp10 : Z).

(** Strings hold their text in UTF-8.  [s.length] counts UTF-16 code
    units: one for a character of one, two or three bytes, two for a
    character of four bytes; a continuation byte counts for nothing. *)
Fixpoint string_length (s : string) : nat :=
  match s with
  | EmptyString => 0%nat
  | String c rest =>
      let n := nat_of_ascii c in
      ((if (n <? 128)%nat then 1
        else if (n <? 192)%nat then 0
        else if (n <? 240)%nat then 1
        else 2) + string_length rest)%nat
  end.

(** The white space [parseFloat] skips (StrWhiteSpaceChar: WhiteSpace and
    LineTerminator), by the bytes of its characters.  One byte: TAB, LF,
    VT, FF, CR and SP. *)
Definition is_white_space1 (c : ascii) : bool :=
  let n := nat_of_ascii c in
  ((9 <=? n)%nat && (n <=? 13)%nat) || (n =? 32)%nat.

(** Two bytes: U+00A0, the no-break space. *)
Definition is_white_space2 (c1 c2 : ascii) : bool :=
  ((nat_of_ascii c1 =? 194) && (nat_of_ascii c2 =? 160))%nat.

(** Three bytes: U+1680, U+2000 to U+200A, the line and paragraph
    separators U+2028 and U+2029, U+202F, U+205F, U+3000, and the byte
    order mark U+FEFF. *)
Definition is_white_space3 (c1 c2 c3 : ascii) : bool :=
  let n1 := nat_of_ascii c1 in
  let n2 := nat_of_ascii c2 in
  let n3 := nat_of_ascii c3 in
  ((n1 =? 225) && (n2 =? 154) && (n3 =? 128)
   || (n1 =? 226) && (n2 =? 128)
      && (((128 <=? n3) && (n3 <=? 138))
          || (n3 =? 168) || (n3 =? 169) || (n3 =? 175))
   || (n1 =? 226) && (n2 =? 129) && (n3 =? 159)
   || (n1 =? 227) && (n2 =? 128) && (n3 =? 128)
   || (n1 =? 239) && (n2 =? 187) && (n3 =? 191))%nat.

(** The string without the white space at its head. *)
Fixpoint trim_start (s : string) : string :=
  match s with
  | String c1 r1 =>
      if is_white_space1 c1 then trim_start r1
      else
        match r1 with
        | String c2 r2 =>
            if is_white_space2 c1 c2 then trim_start r2
            else
              match r2 with
              | String c3 r3 =>
                  if is_white_space3 c1 c2 c3 then trim_start r3 else s
              | EmptyString => s
              end
        | EmptyString => s
        end
  | EmptyString => s
  end.

Definition digit_of (c : ascii) : option N :=
  let n := N_of_ascii c in
  if ((48 <=? n) && (n <=? 57))%N then Some (n - 48)%N else None.

(** Reads the longest run of decimal digits at the head of [s], appending
    them to [acc]; returns the number, how many digits were read, and the
    rest of the string. *)
Fixpoint read_digits (s : string) (acc : N) (count : nat)
  : N * nat * string :=
  match s with
  | String c rest =>
      match digit_of c with
      | Some d => read_digits rest (10 * acc + d)%N (S count)
      | None => (acc, count, s)
      end
  | EmptyString => (acc, count, s)
  end.

Definition read_sign (s : string) : bool * string :=
  match s with
  | String "-" rest => (true, rest)
  | String "+" rest => (false, rest)
  | _ => (false, s)
  end.

(** ExponentPart: [e] or [E], an optional sign, at least one digit;
    contributes [0] when it is not well formed (the prefix stops before
    it). *)
Definition read_exponent (s : string) : Z :=
  match s with
  | String c rest =>
      if (Ascii.eqb c "e" || Ascii.eqb c "E")%bool then
        let '(neg, rest') := read_sign rest in
        let '(e, n, _) := read_digits rest' 0%N 0%nat in
        match n with
        | O => 0
        | S _ => if neg then - Z.of_N e else Z.of_N e
        end
      else 0
  | EmptyString => 0
  end.

(** [parseFloat(s)]: leading white space is skipped, then the longest
    prefix that is a StrDecimalLiteral is read; [None] is [NaN]. *)
Definition parseFloat (s : string) : option Decimal :=
  let '(neg, s1) := read_sign (trim_start s) in
  if String.prefix "Infinity" s1 then Some (Infinite neg)
  else
    let '(ip, ni, s2) := read_digits s1 0%N 0%nat in
    let '(m, nf, s3) :=
      match s2 with
      | String "." rest => read_digits rest ip 0%nat
      | _ => (ip, 0%nat, s2)
      end in
    match (ni + nf)%nat with
    | O => None
    | S _ => Some (Finite neg m (read_exponent s3 - Z.of_nat nf))
    end.

(** [isNaN(parseFloat(s))]. *)
Definition isNaN (d : option Decimal) : bool :=
  match d with
  | None => true
  | Some _ => false
  end.

End Js.

(* ===================================================================== *)
(** ** domain/errors.ts *)
(* ===================================================================== *)

Inductive ErrorCode : Type :=
| AUTH_FAILED
| RATE_LIMITED
| INVALID_REQUEST
| CARRIER_UNAVAILABLE
| MALFORMED_RESPONSE
| NETWORK_ERROR
| TIMEOUT.

#[local] Set Warnings "-register-all".

(** What a [throw] can carry: a plain [Error] (name and message), a
    [CarrierIntegrationError] (code, message, optional cause), or a value
    that is not an [Error] at all. *)
Inductive JsError : Type :=
| PlainError (name message : string)
| CarrierIntegrationError (code : ErrorCode) (message : string)
                          (cause : option JsError)
| NonError (description : string).

(** [error instanceof CarrierIntegrationError]. *)
Definition is_carrier_error (e : JsError) : bool :=
  match e with
  | CarrierIntegrationError _ _ _ => true
  | _ => false
  end.

Definition error_code (e : JsError) : option ErrorCode :=
  match e with
  | CarrierIntegrationError c _ _ => Some c
  | _ => None
  end.

Definition error_message (e : JsError) : option string :=
  match e with
  | PlainError _ m => Some m
  | CarrierIntegrationError _ m _ => Some m
  | NonError _ => None
  end.

Definition error_cause (e : JsError) : option JsError :=
  match e with
  | CarrierIntegrationError _ _ c => c
  | _ => None
  end.

(** The settled value of a promise, or the completion of a synchronous
    block: a value, or a thrown error. *)
Inductive Result (A : Type) : Type :=
| Ok (a : A)
| Throw (e : JsError).

Arguments Ok {A} a.
Arguments Throw {A} e.

(** [try { r } catch (error) { h error }]. *)
Definition try_catch {A} (r : Result A) (h : JsError -> Result A)
  : Result A :=
  match r with
  | Ok a => Ok a
  | Throw e => h e
  end.

Definition result_map {A B} (f : A -> B) (r : Result A) : Result B :=
  match r with
  | Ok a => Ok (f a)
  | Throw e => Throw e
  end.

Definition result_code {A} (r : Result A) : option ErrorCode :=
  match r with
  | Ok _ => None
  | Throw e => error_code e
  end.

(** [a.map(f)] when the callback may throw: it is called on the elements in
    order, with their index ([i] is the index of the head of [l]), and its
    first throw aborts the map. *)
Fixpoint map_throwing {A B} (f : nat -> A -> Result B) (i : nat)
    (l : list A) : Result (list B) :=
  match l with
  | [] => Ok []
  | x :: rest =>
      match f i x with
      | Ok y =>
          match map_throwing f (S i) rest with
          | Ok ys => Ok (y :: ys)
          | Throw e => Throw e
          end
      | Throw e => Throw e
      end
  end.

(* ===================================================================== *)
(** ** domain/types.ts and domain/validation.ts *)
(* ===================================================================== *)

Record Address : Type := {
  street : list string;
  city : string;
  stateOrProvince : string;
  postalCode : string;
  country : string
}.

Record Dimensions : Type := {
  length : Q;
  width : Q;
  height : Q
}.

Record Package : Type := {
  weight : Q;
  dimensions : option Dimensions
}.

Record RateRequest : Type := {
  origin : Address;
  destination : Address;
  packages : list Package;
  serviceLevel : option string
}.

Record RateQuote : Type := {
  carrier : string;
  serviceLevelCode : string;          (* [serviceLevel] of the quote *)
  serviceName : string;
  totalCost : Js.Decimal;
  currency : string;
  estimatedDays : option Js.Number;
  carrierQuoteId : option string
}.

(** [z.string().min(1)]. *)
Definition nonempty_string (s : string) : bool :=
  (1 <=? Js.string_length s)%nat.

(** [z.number().positive()]. *)
Definition positive (q : Q) : bool := 0 <? Qnum q.

Definition AddressSchema (a : Address) : bool :=
  forallb nonempty_string (street a) && (1 <=? List.length (street a))%nat
  && nonempty_string (city a)
  && nonempty_string (stateOrProvince a)
  && nonempty_string (postalCode a)
  && (Js.string_length (country a) =? 2)%nat.

Definition PackageSchema (p : Package) : bool :=
  positive (weight p)
  && match dimensions p with
     | Some d => positive (length d) && positive (width d)
                 && positive (height d)
     | None => true
     end.

(** [RateRequestSchema.safeParse(request).success]. *)
Definition RateRequestSchema (r : RateRequest) : bool :=
  AddressSchema (origin r)
  && AddressSchema (destination r)
  && forallb PackageSchema (packages r) && (1 <=? List.length (packages r))%nat.

(* ===================================================================== *)
(** ** carriers/ups/types.ts: the wire response *)
(* ===================================================================== *)

Record Charges : Type := {
  CurrencyCode : option string;
  MonetaryValue : option string
}.

Record ServiceInfo : Type := {
  Service_Code : option string;
  Service_Description : option string
}.

Record GuaranteedDeliveryInfo : Type := {
  Date : option string;
  Time : option string
}.

Record RatedShipmentEntry : Type := {
  Service : option ServiceInfo;
  TransportationCharges : option Charges;
  TotalCharges : option Charges;
  GuaranteedDelivery : option GuaranteedDeliveryInfo
}.

Record ResponseStatusInfo : Type := {
  Code : option string;
  Description : option string
}.

Record AlertInfo : Type := {
  Alert_Code : option string;
  Alert_Description : option string
}.

Record ResponseInfo : Type := {
  ResponseStatus : option ResponseStatusInfo;
  Alert : option (list AlertInfo)
}.

Record RateResponseEnvelope : Type := {
  Response : option ResponseInfo;
  RatedShipment : option (list RatedShipmentEntry)
}.

Record UPSRateResponse : Type := {
  RateResponse : option RateResponseEnvelope
}.

(* ===================================================================== *)
(** ** http/client.ts: the transport interface *)
(* ===================================================================== *)

Inductive Method : Type := GET | POST | PUT | DELETE.

(** The payload of a request.  The token request carries the form
    parameters ([params.toString()]); the rating request carries the JSON
    document [transformRequest(request)], which is a function of the rate
    request and is kept here as that request. *)
Inductive Payload : Type :=
| FormBody (params : list (string * string))
| RateBody (request : RateRequest).

Record HttpRequest : Type := {
  url : string;
  method : Method;
  headers : list (string * string);
  body : Payload
}.

(** The token endpoint's JSON body, read as
    [{ access_token; token_type; expires_in }]; [expires_in] is a whole
    number of seconds. *)
Record TokenResponse : Type := {
  access_token : option string;
  token_type : option string;
  expires_in : option Z
}.

(** A response body.  [request<T>] casts without checking: the body may be
    the JSON value [null] (or be missing altogether), on which reading a
    property raises a [TypeError]; any other body of another shape reads
    as an object none of whose expected fields is present. *)
Inductive Body : Type :=
| TokenJson (b : TokenResponse)
| RateJson (b : UPSRateResponse)
| OtherBody (text : string)
| NullBody.

(** [body === null || body === undefined]. *)
Definition is_null (b : Body) : bool :=
  match b with
  | NullBody => true
  | _ => false
  end.

(** The fields a body carries: a null body, like a body of another shape,
    carries none.  (Reading a field of a null body is another matter: the
    code that does so raises, see [OAuth.acquireToken_try] and
    [UPS.transformBody].) *)
Definition as_token (b : Body) : TokenResponse :=
  match b with
  | TokenJson t => t
  | _ => {| access_token := None; token_type := None; expires_in := None |}
  end.

Definition as_rate (b : Body) : UPSRateResponse :=
  match b with
  | RateJson r => r
  | _ => {| RateResponse := None |}
  end.

Record HttpResponse : Type := {
  status : Z;
  response_headers : list (string * string);
  response_body : Body
}.

(** How one [httpClient.request(req)] settles: with a response, or by
    raising. *)
Inductive TransportOutcome : Type :=
| Responds (r : HttpResponse)
| Raises (e : JsError).

(** An [HttpClient]: given the requests dispatched before and the request at
    hand, how long the call takes (milliseconds) and how it settles. *)
Record HttpClient : Type := {
  transport : list HttpRequest -> HttpRequest -> Z * TransportOutcome
}.

(* ===================================================================== *)
(** ** auth/oauth.ts: the token manager *)
(* ===================================================================== *)

Definition PromiseId : Type := nat.

Module OAuth.

Record OAuthToken : Type := {
  accessToken : string;
  expiresAt : Z;                      (* Unix timestamp in milliseconds *)
  tokenType : string
}.

Record OAuthConfig : Type := {
  tokenUrl : string;
  clientId : string;
  clientSecret : string;
  scope : option string
}.

(** The immutable fields of an [OAuthClient]. *)
Record OAuthClient : Type := {
  config : OAuthConfig;
  httpClient : HttpClient
}.

(** The mutable fields of an [OAuthClient]: [this.token] and
    [this.tokenRefreshPromise] (the in-flight acquisition marker). *)
Record State : Type := {
  token : option OAuthToken;
  tokenRefreshPromise : option PromiseId
}.

Definition initial : State :=
  {| token := None; tokenRefreshPromise := None |}.

Definition bufferMs : Z := 60000.

(** [isTokenValid(token)], with [Date.now() = now]. *)
Definition isTokenValid (now : Z) (t : OAuthToken) : bool :=
  now <? expiresAt t - bufferMs.

(** [this.token && this.isTokenValid(this.token)]. *)
Definition has_valid_token (now : Z) (s : State) : bool :=
  match token s with
  | Some t => isTokenValid now t
  | None => false
  end.

(** [clearToken()]. *)
Definition clearToken (s : State) : State :=
  {| token := None; tokenRefreshPromise := tokenRefreshPromise s |}.

(** [acquireToken], up to its [await]: the request it dispatches. *)
Definition acquireToken_request (c : OAuthConfig) : HttpRequest :=
  let params :=
    [ ("grant_type", "client_credentials");
      ("client_id", clientId c);
      ("client_secret", clientSecret c) ] in
  let params :=
    match scope c with
    | Some s => if Js.truthy_string (scope c)
                then (params ++ [("scope", s)])%list else params
    | None => params
    end in
  {| url := tokenUrl c;
     method := POST;
     headers := [("Content-Type", "application/x-www-form-urlencoded")];
     body := FormBody params |}.

(** The [catch] block of [acquireToken]. *)
Definition acquireToken_catch (error : JsError) : Result OAuthToken :=
  if is_carrier_error error then Throw error
  else Throw (CarrierIntegrationError AUTH_FAILED
                "Failed to acquire OAuth token" (Some error)).

Definition missing_required_fields : JsError :=
  CarrierIntegrationError MALFORMED_RESPONSE
    "OAuth response missing required fields"
    (Some (PlainError "Error" "Invalid OAuth response structure")).

(** What [const { access_token, token_type, expires_in } = response.body]
    raises when the body is null.  (The wording of the message is the
    engine's.) *)
Definition null_body : JsError :=
  PlainError "TypeError"
    "Cannot destructure property 'access_token' of 'response.body' as it is null.".

(** The [try] block of [acquireToken] after the response has arrived. *)
Definition acquireToken_try (now : Z) (response : HttpResponse)
  : Result OAuthToken :=
  if negb (status response =? 200) then
    Throw (CarrierIntegrationError AUTH_FAILED
             ("OAuth token request failed with status "
                ++ Js.number_to_string (status response))
             (Some (PlainError "Error"
                      ("HTTP " ++ Js.number_to_string (status response)))))
  else if is_null (response_body response) then
    Throw null_body
  else
    let b := as_token (response_body response) in
    match access_token b, expires_in b with
    | Some tok, Some secs =>
        if negb (Js.truthy_string (access_token b))
           || negb (Js.truthy_number (expires_in b))
        then Throw missing_required_fields
        else
          Ok {| accessToken := tok;
                tokenType := Js.or_default (token_type b) "Bearer";
                expiresAt := now + secs * 1000 |}
    | _, _ => Throw missing_required_fields   (* an absent field is falsy *)
    end.

(** [acquireToken], from the settling of its [await] on: [now] is
    [Date.now()] at that moment. *)
Definition acquireToken_resume (now : Z) (out : TransportOutcome)
  : Result OAuthToken :=
  match out with
  | Responds response =>
      try_catch (acquireToken_try now response) acquireToken_catch
  | Raises error => acquireToken_catch error
  end.

(** How a call of [getAccessToken] leaves its synchronous prefix. *)
Inductive Entered : Type :=
| Immediately (accessToken : string)
    (* the cached token is valid: returned without awaiting *)
| Joins (p : PromiseId)
    (* a refresh is in progress: awaits it *)
| Starts (p : PromiseId) (req : HttpRequest).
    (* starts an acquisition, dispatching [req], and awaits it *)

(** [getAccessToken] up to its first [await].  [fresh] names the promise
    that [acquireToken()] returns if it is called. *)
Definition getAccessToken_enter (c : OAuthConfig) (now : Z)
    (fresh : PromiseId) (s : State) : Entered * State :=
  match token s with
  | Some t =>
      if isTokenValid now t then (Immediately (accessToken t), s)
      else
        match tokenRefreshPromise s with
        | Some p => (Joins p, s)
        | None =>
            (Starts fresh (acquireToken_request c),
             {| token := token s; tokenRefreshPromise := Some fresh |})
        end
  | None =>
      match tokenRefreshPromise s with
      | Some p => (Joins p, s)
      | None =>
          (Starts fresh (acquireToken_request c),
           {| token := token s; tokenRefreshPromise := Some fresh |})
      end
  end.

(** Which [await] a suspended caller resumes from. *)
Inductive Role : Type :=
| Owner      (* [await this.tokenRefreshPromise] inside the [try] *)
| Waiter.    (* [await this.tokenRefreshPromise] of the in-progress branch *)

(** [getAccessToken] from the settling of the awaited promise on. *)
Definition getAccessToken_resume (role : Role) (settled : Result OAuthToken)
    (s : State) : Result string * State :=
  match role with
  | Owner =>
      match settled with
      | Ok newToken =>
          (Ok (accessToken newToken),
           {| token := Some newToken; tokenRefreshPromise := None |})
      | Throw e =>
          (Throw e, {| token := token s; tokenRefreshPromise := None |})
      end
  | Waiter =>
      match settled with
      | Ok refreshedToken => (Ok (accessToken refreshedToken), s)
      | Throw e => (Throw e, s)
      end
  end.

End OAuth.

(* ===================================================================== *)
(** ** One task running alone *)
(* ===================================================================== *)

(** The world one task sees: the clock, the token manager's mutable fields
    and the requests dispatched so far. *)
Record World : Type := {
  clock : Z;
  oauth : OAuth.State;
  sent : list HttpRequest
}.

(** How a task completes when no other task runs: it settles, or it stays
    suspended on a promise that only another task could settle. *)
Inductive Run (A : Type) : Type :=
| Settles (r : Result A)
| Pending (p : PromiseId).

Arguments Settles {A} r.
Arguments Pending {A} p.

Definition result_code_of_run {A} (r : Run A) : option ErrorCode :=
  match r with
  | Settles s => result_code s
  | Pending _ => None
  end.

Definition M (A : Type) : Type := World -> Run A * World.

Definition ret {A} (a : A) : M A := fun w => (Settles (Ok a), w).

Definition throw {A} (e : JsError) : M A := fun w => (Settles (Throw e), w).

Definition bind {A B} (m : M A) (k : A -> M B) : M B :=
  fun w =>
    match m w with
    | (Settles (Ok a), w') => k a w'
    | (Settles (Throw e), w') => (Settles (Throw e), w')
    | (Pending p, w') => (Pending p, w')
    end.

(** [try { m } catch (error) { h error }]. *)
Definition catch {A} (m : M A) (h : JsError -> M A) : M A :=
  fun w =>
    match m w with
    | (Settles (Throw e), w') => h e w'
    | other => other
    end.

Definition lift {A} (r : Result A) : M A := fun w => (Settles r, w).

Declare Scope task_scope.
Delimit Scope task_scope with task.
Notation "x <- m ;; k" := (bind m (fun x => k))
  (at level 61, m at next level, right associativity) : task_scope.
Notation "m ;;; k" := (bind m (fun _ => k))
  (at level 61, right associativity) : task_scope.
#[local] Open Scope task_scope.

(** [Date.now()]. *)
Definition Date_now : M Z := fun w => (Settles (Ok (clock w)), w).

(** The world once [req] has been dispatched and has settled, [elapsed]
    milliseconds later. *)
Definition after_request (w : World) (req : HttpRequest) (elapsed : Z)
  : World :=
  {| clock := clock w + Z.max 0 elapsed;
     oauth := oauth w;
     sent := sent w ++ [req] |}.

(** [await client.request(req)]: the request is logged, time passes, and the
    call settles as the transport decides. *)
Definition request (client : HttpClient) (req : HttpRequest)
  : M HttpResponse :=
  fun w =>
    let '(elapsed, out) := transport client (sent w) req in
    let w' := after_request w req elapsed in
    match out with
    | Responds r => (Settles (Ok r), w')
    | Raises e => (Settles (Throw e), w')
    end.

(** The rating requests among those dispatched. *)
Definition is_rating_request (req : HttpRequest) : bool :=
  match body req with
  | RateBody _ => true
  | FormBody _ => false
  end.

Definition rating_dispatches (w : World) : list HttpRequest :=
  filter is_rating_request (sent w).

(** [oauthClient.clearToken()]. *)
Definition clearToken : M unit :=
  fun w =>
    (Settles (Ok tt),
     {| clock := clock w; oauth := OAuth.clearToken (oauth w);
        sent := sent w |}).

(** [await oauthClient.getAccessToken()] for a task running alone. *)
Definition getAccessToken (c : OAuth.OAuthClient) : M string :=
  fun w =>
    match OAuth.getAccessToken_enter (OAuth.config c) (clock w)
            (List.length (sent w)) (oauth w) with
    | (OAuth.Immediately s, st) =>
        (Settles (Ok s), {| clock := clock w; oauth := st; sent := sent w |})
    | (OAuth.Joins p, st) =>
        (Pending p, {| clock := clock w; oauth := st; sent := sent w |})
    | (OAuth.Starts _ req, st) =>
        let '(elapsed, out) := transport (OAuth.httpClient c) (sent w) req in
        let now := clock w + Z.max 0 elapsed in
        let '(r, st') :=
          OAuth.getAccessToken_resume OAuth.Owner
            (OAuth.acquireToken_resume now out) st in
        (Settles r, {| clock := now; oauth := st'; sent := sent w ++ [req] |})
    end.

(* ===================================================================== *)
(** ** Several callers of one token manager *)
(* ===================================================================== *)

(** Callers of [getAccessToken] interleave only at their [await]s.  The loop
    below runs the synchronous prefix of each call when it is made, parks
    the caller on the promise it awaits, and, when the transport settles the
    token request of an acquisition, runs [acquireToken] to its end and then
    the parked continuations in the order in which they were registered on
    the promise (the owner registers first: it awaits the promise in the
    same synchronous block that created it). *)
Module EventLoop.

Inductive Event : Type :=
| Invoke (now : Z)
    (* a caller calls [getAccessToken()] *)
| Settle (p : PromiseId) (now : Z) (out : TransportOutcome)
    (* the token request of acquisition [p] settles *)
| ClearToken.
    (* somebody calls [clearToken()] *)

Definition Parked : Type := (nat * OAuth.Role * PromiseId)%type.

Record Loop : Type := {
  manager : OAuth.State;
  dispatched : list HttpRequest;           (* token requests sent *)
  parked : list Parked;                    (* suspended callers *)
  answered : list (nat * Result string);   (* callers that have settled *)
  invoked : nat                            (* calls made so far *)
}.

(** Runs the continuations parked on [p], in order. *)
Fixpoint wake (p : PromiseId) (r : Result OAuth.OAuthToken)
    (ps : list Parked) (st : OAuth.State)
  : list (nat * Result string) * list Parked * OAuth.State :=
  match ps with
  | [] => ([], [], st)
  | (i, role, q) :: rest =>
      if (q =? p)%nat then
        let '(res, st1) := OAuth.getAccessToken_resume role r st in
        let '(done, still, st2) := wake p r rest st1 in
        ((i, res) :: done, still, st2)
      else
        let '(done, still, st2) := wake p r rest st in
        (done, (i, role, q) :: still, st2)
  end.

Definition step (c : OAuth.OAuthConfig) (L : Loop) (e : Event) : Loop :=
  match e with
  | Invoke now =>
      match OAuth.getAccessToken_enter c now
              (List.length (dispatched L)) (manager L) with
      | (OAuth.Immediately s, st) =>
          {| manager := st;
             dispatched := dispatched L;
             parked := parked L;
             answered := answered L ++ [(invoked L, Ok s)];
             invoked := S (invoked L) |}
      | (OAuth.Joins p, st) =>
          {| manager := st;
             dispatched := dispatched L;
             parked := parked L ++ [(invoked L, OAuth.Waiter, p)];
             answered := answered L;
             invoked := S (invoked L) |}
      | (OAuth.Starts p req, st) =>
          {| manager := st;
             dispatched := dispatched L ++ [req];
             parked := parked L ++ [(invoked L, OAuth.Owner, p)];
             answered := answered L;
             invoked := S (invoked L) |}
      end
  | Settle p now out =>
      let '(done, still, st) :=
        wake p (OAuth.acquireToken_resume now out) (parked L) (manager L) in
      {| manager := st;
         dispatched := dispatched L;
         parked := still;
         answered := answered L ++ done;
         invoked := invoked L |}
  | ClearToken =>
      {| manager := OAuth.clearToken (manager L);
         dispatched := dispatched L;
         parked := parked L;
         answered := answered L;
         invoked := invoked L |}
  end.

Definition run (c : OAuth.OAuthConfig) (L : Loop) (es : list Event) : Loop :=
  fold_left (step c) es L.

(** The string, or the failure, a caller gets from a settled
    acquisition ([refreshedToken.accessToken], or the rejection). *)
Definition answer (r : Result OAuth.OAuthToken) : Result string :=
  result_map OAuth.accessToken r.

(** [n] callers numbered from [k], all parked as waiters on [p]. *)
Definition waiters (p : PromiseId) (k n : nat) : list Parked :=
  map (fun i => (i, OAuth.Waiter, p)) (seq k n).

(** A quiescent loop around a manager state: nobody parked, nothing sent. *)
Definition idle (st : OAuth.State) : Loop :=
  {| manager := st; dispatched := []; parked := []; answered := [];
     invoked := 0%nat |}.

End EventLoop.

(* ===================================================================== *)
(** ** carriers/ups/adapter.ts *)
(* ===================================================================== *)

Module UPS.

Record UPSConfig : Type := {
  baseUrl : string;
  oauthClient : OAuth.OAuthClient;
  shipperNumber : option string
}.

Record UPSAdapter : Type := {
  config : UPSConfig;
  httpClient : HttpClient
}.

Definition getName : string := "UPS".

(** [1000 * 60 * 60 * 24]. *)
Definition msPerDay : Z := 1000 * 60 * 60 * 24.

(** [rateResponse.Response?.ResponseStatus]. *)
Definition responseStatus (r : RateResponseEnvelope)
  : option ResponseStatusInfo :=
  match Response r with
  | Some resp => ResponseStatus resp
  | None => None
  end.

(** [rateResponse.Response?.ResponseStatus?.Code]. *)
Definition responseStatusCode (r : RateResponseEnvelope) : option string :=
  match responseStatus r with
  | Some st => Code st
  | None => None
  end.

(** [rateResponse.Response?.ResponseStatus?.Description]. *)
Definition responseStatusDescription (r : RateResponseEnvelope)
  : option string :=
  match responseStatus r with
  | Some st => Description st
  | None => None
  end.

(** [rateResponse.Response?.Alert?.[0]?.Description]. *)
Definition firstAlertDescription (r : RateResponseEnvelope)
  : option string :=
  match Response r with
  | Some resp =>
      match Alert resp with
      | Some (a :: _) => Alert_Description a
      | _ => None
      end
  | None => None
  end.

(** The [description] of a failed envelope. *)
Definition errorDescription (r : RateResponseEnvelope) : string :=
  Js.or_default
    (Js.or_string (responseStatusDescription r) (firstAlertDescription r))
    "Unknown UPS error".

(** [x !== '1']. *)
Definition not_success_code (c : option string) : bool :=
  match c with
  | Some s => negb (String.eqb s "1")
  | None => true
  end.

Section Transform.

(** [new Date(s).getTime()]: the instant a date string denotes, [NaN]
    for a string that is not a date. *)
Variable Date_getTime : string -> Js.Number.

(** The [estimatedDays] block of the shipment callback. *)
Definition estimateDays (now : Z) (shipment : RatedShipmentEntry)
  : option Js.Number :=
  match GuaranteedDelivery shipment with
  | Some g =>
      match Date g with
      | Some d =>
          if Js.truthy_string (Date g) then
            let deliveryDate := Date_getTime d in
            let diffTime := Js.sub deliveryDate (Js.Int now) in
            let estimatedDays := Js.ceil_div diffTime msPerDay in
            if Js.lt_const estimatedDays 0 then None
            else Some estimatedDays
          else None
      | None => None
      end
  | None => None
  end.

(** [shipment.TotalCharges || shipment.TransportationCharges]. *)
Definition selectCharges (shipment : RatedShipmentEntry)
  : option Charges :=
  match TotalCharges shipment with
  | Some c => Some c
  | None => TransportationCharges shipment
  end.

(** The callback of [rateResponse.RatedShipment.map].  It reads the clock
    twice: [dateNow] is what [new Date()] gives for the estimate, [idNow]
    what [Date.now()] gives for the quote identifier. *)
Definition transformShipment (dateNow idNow : Z)
    (shipment : RatedShipmentEntry) : Result RateQuote :=
  let serviceCode :=
    Js.or_default
      (match Service shipment with Some s => Service_Code s | None => None end)
      "UNKNOWN" in
  let serviceName :=
    Js.or_default
      (match Service shipment with
       | Some s => Service_Description s
       | None => None
       end)
      "Unknown Service" in
  let totalCharges := selectCharges shipment in
  match totalCharges with
  | Some charges =>
      match MonetaryValue charges with
      | Some value =>
          if negb (Js.truthy_string (MonetaryValue charges)) then
            Throw (CarrierIntegrationError MALFORMED_RESPONSE
                     "UPS response missing charge information" None)
          else
            match Js.parseFloat value with
            | None =>
                Throw (CarrierIntegrationError MALFORMED_RESPONSE
                         ("Invalid cost value: " ++ value) None)
            | Some cost =>
                Ok {| carrier := "UPS";
                      serviceLevelCode := serviceCode;
                      serviceName := serviceName;
                      totalCost := cost;
                      currency :=
                        Js.or_default (CurrencyCode charges) "USD";
                      estimatedDays := estimateDays dateNow shipment;
                      carrierQuoteId :=
                        Some (serviceCode ++ "-"
                                ++ Js.number_to_string idNow) |}
            end
      | None =>
          Throw (CarrierIntegrationError MALFORMED_RESPONSE
                   "UPS response missing charge information" None)
      end
  | None =>
      Throw (CarrierIntegrationError MALFORMED_RESPONSE
               "UPS response missing charge information" None)
  end.

(** [transformResponse(response)] for a response that is an object.  The
    callback runs once per rated shipment and reads the clock each time:
    [clock i] is the pair of readings ([new Date()], then [Date.now()])
    of the callback of the shipment of index [i]. *)
Definition transformResponse (clock : nat -> Z * Z)
    (response : UPSRateResponse) : Result (list RateQuote) :=
  match RateResponse response with
  | None =>
      Throw (CarrierIntegrationError MALFORMED_RESPONSE
               "UPS response missing RateResponse" None)
  | Some rateResponse =>
      if not_success_code (responseStatusCode rateResponse) then
        Throw (CarrierIntegrationError INVALID_REQUEST
                 ("UPS API error: " ++ errorDescription rateResponse)
                 None)
      else
        match RatedShipment rateResponse with
        | None => Ok []
        | Some [] => Ok []
        | Some shipments =>
            map_throwing
              (fun i shipment =>
                 transformShipment (fst (clock i)) (snd (clock i)) shipment)
              0 shipments
        end
  end.

(** What [response.RateResponse] raises when the response is null.  (The
    wording of the message is the engine's.) *)
Definition null_body : JsError :=
  PlainError "TypeError"
    "Cannot read properties of null (reading 'RateResponse')".

(** [this.transformResponse(body)] for the body of a response, which may
    be null: the first thing the function does is to read a property of
    it. *)
Definition transformBody (clock : nat -> Z * Z) (b : Body)
  : Result (list RateQuote) :=
  if is_null b then Throw null_body
  else transformResponse clock (as_rate b).

(** How far the clock has advanced, since [transformResponse] was entered,
    at the two readings of the callback of the shipment of index [i]. *)
Variable Date_drift : nat -> Z * Z.

(** The readings of the clock in a run of [transformResponse] entered at
    [now]. *)
Definition readings (now : Z) (i : nat) : Z * Z :=
  (now + Z.max 0 (fst (Date_drift i)), now + Z.max 0 (snd (Date_drift i))).

(** [headers.Authorization = value]. *)
Fixpoint set_header (name value : string) (hs : list (string * string))
  : list (string * string) :=
  match hs with
  | [] => [(name, value)]
  | (n, v) :: rest =>
      if String.eqb n name then (n, value) :: rest
      else (n, v) :: set_header name value rest
  end.

(** [error instanceof Error && error.message === 'Request timeout']. *)
Definition is_timeout (error : JsError) : bool :=
  match error with
  | PlainError _ m => String.eqb m "Request timeout"
  | CarrierIntegrationError _ m _ => String.eqb m "Request timeout"
  | NonError _ => false
  end.

(** The [catch] block of [getRates]. *)
Definition getRates_catch {A} (error : JsError) : M A :=
  if is_carrier_error error then throw error
  else if is_timeout error then
    throw (CarrierIntegrationError TIMEOUT
             "UPS API request timed out" (Some error))
  else
    throw (CarrierIntegrationError NETWORK_ERROR
             "Network error communicating with UPS API" (Some error)).

(** The request [getRates] builds.  The [transId] header, a random
    correlation string, is left out. *)
Definition rateRequest (a : UPSAdapter) (request : RateRequest)
    (accessToken : string) : HttpRequest :=
  {| url := baseUrl (config a) ++ "/api/rating/v1/Rate";
     method := POST;
     headers :=
       [ ("Authorization", "Bearer " ++ accessToken);
         ("Content-Type", "application/json");
         ("transactionSrc", "carrier-integration-service") ];
     body := RateBody request |}.

Definition with_authorization (req : HttpRequest) (value : string)
  : HttpRequest :=
  {| url := url req; method := method req;
     headers := set_header "Authorization" value (headers req);
     body := body req |}.

(** [return this.transformResponse(body)].  (The clock of the world is
    the instant at which the last [await] settled; what the callbacks read
    is that instant plus the drift.) *)
Definition transformResponseM (b : Body) : M (list RateQuote) :=
  now <- Date_now ;;
  lift (transformBody (readings now) b).

(** The [try] block of [getRates]. *)
Definition getRates_try (a : UPSAdapter) (httpRequest : HttpRequest)
  : M (list RateQuote) :=
  response <- request (httpClient a) httpRequest ;;
  if status response =? 401 then
    clearToken ;;;
    newToken <- getAccessToken (oauthClient (config a)) ;;
    let httpRequest :=
      with_authorization httpRequest ("Bearer " ++ newToken) in
    retryResponse <- request (httpClient a) httpRequest ;;
    transformResponseM (response_body retryResponse)
  else if status response =? 429 then
    throw (CarrierIntegrationError RATE_LIMITED
             "UPS API rate limit exceeded" None)
  else if 500 <=? status response then
    throw (CarrierIntegrationError CARRIER_UNAVAILABLE
             ("UPS API returned server error: "
                ++ Js.number_to_string (status response)) None)
  else if negb (status response =? 200) then
    throw (CarrierIntegrationError INVALID_REQUEST
             ("UPS API returned error status: "
                ++ Js.number_to_string (status response)) None)
  else
    transformResponseM (response_body response).

(** [getRates(request)]. *)
Definition getRates (a : UPSAdapter) (request : RateRequest)
  : M (list RateQuote) :=
  accessToken <- getAccessToken (oauthClient (config a)) ;;
  let httpRequest := rateRequest a request accessToken in
  catch (getRates_try a httpRequest) getRates_catch.

End Transform.

End UPS.

(* ===================================================================== *)
(** ** service.ts: the facade *)
(* ===================================================================== *)

Module Carrier.

(** What a call [carrier.getRates(request)] does: it returns a promise,
    which settles, or the call itself throws before any promise exists
    (an implementation that is not an [async] function can). *)
Inductive Call : Type :=
| Returns (promise : Result (list RateQuote))
| Throws (e : JsError).

(** carriers/carrier.ts. *)
Record Carrier : Type := {
  getName : string;
  call : RateRequest -> Call
}.

(** [await carrier.getRates(request)], or [return carrier.getRates(request)]
    from an [async] function: a throw of the call and a rejection of
    its promise come to the same. *)
Definition getRates (c : Carrier) (request : RateRequest)
  : Result (list RateQuote) :=
  match call c request with
  | Returns promise => promise
  | Throws e => Throw e
  end.

(** The call returns a promise. *)
Definition returns_promise (request : RateRequest) (c : Carrier) : bool :=
  match call c request with
  | Returns _ => true
  | Throws _ => false
  end.

End Carrier.

Module CarrierIntegrationService.

Record CarrierServiceConfig : Type := {
  carriers : list Carrier.Carrier
}.

(** The constructor. *)
Definition new (cfg : CarrierServiceConfig)
  : Result CarrierServiceConfig :=
  match carriers cfg with
  | [] => Throw (PlainError "Error"
                   "At least one carrier must be configured")
  | _ => Ok cfg
  end.

(** The callback of [this.config.carriers.map]:
    [carrier.getRates(request).then(...).catch(...)].  The handlers are
    attached to the promise the call returns and give the per-carrier
    result [{ carrier, quotes }]; a throw of the call itself leaves the
    callback. *)
Definition carrierPromise (request : RateRequest) (c : Carrier.Carrier)
  : Result (string * list RateQuote) :=
  match Carrier.call c request with
  | Carrier.Returns (Ok quotes) => Ok (Carrier.getName c, quotes)
  | Carrier.Returns (Throw _) => Ok (Carrier.getName c, [])
  | Carrier.Throws e => Throw e
  end.

(** Whether a carrier's call comes to quotes, and the quotes it then
    carries. *)
Definition succeeds (request : RateRequest) (c : Carrier.Carrier) : bool :=
  match Carrier.getRates c request with
  | Ok _ => true
  | Throw _ => false
  end.

Definition quotes_of (request : RateRequest) (c : Carrier.Carrier)
  : list RateQuote :=
  match Carrier.getRates c request with
  | Ok quotes => quotes
  | Throw _ => []
  end.

Section Facade.

(** [validationResult.error] of a failed [safeParse]: a [ZodError]. *)
Variable zodError : RateRequest -> JsError.

Definition invalid_request (request : RateRequest) : JsError :=
  CarrierIntegrationError INVALID_REQUEST
    ("Invalid rate request: "
       ++ match error_message (zodError request) with
          | Some m => m
          | None => EmptyString
          end)
    (Some (zodError request)).

(** [getRates(request)]: validation, then the fan-out over the carriers,
    [Promise.all] and [flatMap]. *)
Definition getRates (cfg : CarrierServiceConfig) (request : RateRequest)
  : Result (list RateQuote) :=
  if negb (RateRequestSchema request) then
    Throw (invalid_request request)
  else
    match map_throwing (fun _ => carrierPromise request) 0 (carriers cfg) with
    | Throw e => Throw e
    | Ok results => Ok (flat_map (fun result => snd result) results)
    end.

End Facade.

End CarrierIntegrationService.

(* ===================================================================== *)
(** ** Stub transport and sample data (after the test fixtures) *)
(* ===================================================================== *)

Module Fixtures.

(** A stub client that answers the [n]-th request it receives with the
    [n]-th entry of a script, and raises once the script is exhausted. *)
Definition scripted (script : list (Z * TransportOutcome)) : HttpClient :=
  {| transport := fun history _ =>
       nth (List.length history) script
         (0, Raises (PlainError "Error" "No stub configured")) |}.

Definition oauthConfig : OAuth.OAuthConfig :=
  {| OAuth.tokenUrl := "https://api.ups.com/oauth/token";
     OAuth.clientId := "test-client-id";
     OAuth.clientSecret := "test-client-secret";
     OAuth.scope := Some "rating" |}.

Definition tokenBody (tok : string) (secs : Z) : Body :=
  TokenJson {| access_token := Some tok;
               token_type := Some "Bearer";
               expires_in := Some secs |}.

Definition respond (code : Z) (b : Body) : TransportOutcome :=
  Responds {| status := code;
              response_headers := [("content-type", "application/json")];
              response_body := b |}.

Definition oauthClient (script : list (Z * TransportOutcome))
  : OAuth.OAuthClient :=
  {| OAuth.config := oauthConfig; OAuth.httpClient := scripted script |}.

Definition adapter (script : list (Z * TransportOutcome))
  : UPS.UPSAdapter :=
  {| UPS.config :=
       {| UPS.baseUrl := "https://onlinetools.ups.com";
          UPS.oauthClient := oauthClient script;
          UPS.shipperNumber := None |};
     UPS.httpClient := scripted script |}.

Definition address (line town state zip : string) : Address :=
  {| street := [line]; city := town; stateOrProvince := state;
     postalCode := zip; country := "US" |}.

Definition validRateRequest : RateRequest :=
  {| origin := address "123 Main St" "New York" "NY" "10001";
     destination := address "456 Oak Ave" "Los Angeles" "CA" "90001";
     packages :=
       [ {| weight := 5 # 1;
            dimensions :=
              Some {| length := 10 # 1; width := 8 # 1;
                      height := 6 # 1 |} |} ];
     serviceLevel := None |}.

Definition charges (value : string) : Charges :=
  {| CurrencyCode := Some "USD"; MonetaryValue := Some value |}.

Definition shipment (code name value : string) (date : option string)
  : RatedShipmentEntry :=
  {| Service := Some {| Service_Code := Some code;
                        Service_Description := Some name |};
     TransportationCharges := Some (charges value);
     TotalCharges := Some (charges value);
     GuaranteedDelivery :=
       match date with
       | Some d => Some {| Date := Some d; Time := None |}
       | None => None
       end |}.

Definition successEnvelope (shipments : option (list RatedShipmentEntry))
  : UPSRateResponse :=
  {| RateResponse :=
       Some {| Response :=
                 Some {| ResponseStatus :=
                           Some {| Code := Some "1";
                                   Description := Some "Success" |};
                         Alert := None |};
               RatedShipment := shipments |} |}.

(** The first rating call answers 401; after the token refresh the retry
    is answered with status 429 and an error body. *)
Definition retryRateLimited : list (Z * TransportOutcome) :=
  [ (25, respond 200 (tokenBody "expired-token-xyz789" 3600));
    (40, respond 401 (OtherBody "Unauthorized"));
    (25, respond 200 (tokenBody "test-access-token-abc123xyz" 3600));
    (40, respond 429 (OtherBody "Rate limit exceeded")) ].

(** The first rating call is answered with status 429 at once. *)
Definition rateLimited : list (Z * TransportOutcome) :=
  [ (25, respond 200 (tokenBody "test-access-token-abc123xyz" 3600));
    (40, respond 429 (OtherBody "Rate limit exceeded")) ].

(** The first rating call answers 401; the retry is answered with status
    500 and a body that happens to be a success envelope. *)
Definition retryServerError : list (Z * TransportOutcome) :=
  [ (25, respond 200 (tokenBody "expired-token-xyz789" 3600));
    (40, respond 401 (OtherBody "Unauthorized"));
    (25, respond 200 (tokenBody "test-access-token-abc123xyz" 3600));
    (40, respond 500
           (RateJson (successEnvelope
                        (Some [shipment "03" "Ground" "25.50" None])))) ].

Definition authorization (req : HttpRequest) : option string :=
  match find (fun h => String.eqb (fst h) "Authorization") (headers req) with
  | Some h => Some (snd h)
  | None => None
  end.

(** 2026-02-12T00:00:00Z, in milliseconds since the epoch. *)
Definition feb12 : Z := 1770854400000.

Definition groundQuote : RateQuote :=
  {| carrier := "UPS"; serviceLevelCode := "03"; serviceName := "Ground";
     totalCost := Js.Finite false 2550 (-2); currency := "USD";
     estimatedDays := None; carrierQuoteId := Some "03-1000" |}.

(** A carrier whose promise is rejected. *)
Definition failingCarrier : Carrier.Carrier :=
  {| Carrier.getName := "FEDEX";
     Carrier.call := fun _ =>
       Carrier.Returns
         (Throw (CarrierIntegrationError CARRIER_UNAVAILABLE
                   "UPS API returned server error: 500" None)) |}.

Definition succeedingCarrier : Carrier.Carrier :=
  {| Carrier.getName := "UPS";
     Carrier.call := fun _ => Carrier.Returns (Ok [groundQuote]) |}.

(** A carrier whose [getRates] is not an [async] function and throws. *)
Definition throwingCarrier : Carrier.Carrier :=
  {| Carrier.getName := "DHL";
     Carrier.call := fun _ =>
       Carrier.Throws (PlainError "Error" "DHL is not set up") |}.

Definition zodError (_ : RateRequest) : JsError :=
  PlainError "ZodError" "Required".

(** A clock start, a fresh token manager, nothing sent. *)
Definition start (now : Z) : World :=
  {| clock := now; oauth := OAuth.initial; sent := [] |}.

(** A date parser that knows one date. *)
Definition oneDate (date : string) (instant : Z) (s : string) : Js.Number :=
  if String.eqb s date then Js.Int instant else Js.NaN.

(** A manager holding an expired token while a refresh is in flight. *)
Definition refreshing : World :=
  {| clock := 100000;
     oauth :=
       {| OAuth.token :=
            Some {| OAuth.accessToken := "first-token";
                    OAuth.expiresAt := 100000;
                    OAuth.tokenType := "Bearer" |};
          OAuth.tokenRefreshPromise := Some 1%nat |};
     sent := [OAuth.acquireToken_request oauthConfig;
              OAuth.acquireToken_request oauthConfig] |}.

(** A manager holding a cached token that expires at [expiry]. *)
Definition holding (now expiry : Z) : World :=
  {| clock := now;
     oauth :=
       {| OAuth.token :=
            Some {| OAuth.accessToken := "cached-token";
                    OAuth.expiresAt := expiry;
                    OAuth.tokenType := "Bearer" |};
          OAuth.tokenRefreshPromise := None |};
     sent := [OAuth.acquireToken_request oauthConfig] |}.

End Fixtures.

(* ===================================================================== *)
(** ** carriers/ups/adapter.ts: the wire request *)
(* ===================================================================== *)

Module UPSWire.

Definition DomainAddress : Type := Address.
Definition DomainPackage : Type := Package.
Definition DomainRateRequest : Type := RateRequest.

Record CodeInfo : Type := {
  Code : string
}.

Record WireAddress : Type := {
  AddressLine : option (list string);
  City : string;
  StateProvinceCode : string;
  PostalCode : string;
  CountryCode : string
}.

Record WireDimensions : Type := {
  Dimensions_UnitOfMeasurement : CodeInfo;
  Length : string;
  Width : string;
  Height : string
}.

Record WireWeight : Type := {
  Weight_UnitOfMeasurement : CodeInfo;
  Weight : string
}.

Record WirePackage : Type := {
  PackagingType : option CodeInfo;
  Dimensions : option WireDimensions;
  PackageWeight : WireWeight
}.

Record WireShipper : Type := {
  ShipperNumber : option string;
  Shipper_Address : WireAddress
}.

Record WireShipTo : Type := {
  ShipTo_Address : WireAddress
}.

Record WireShipment : Type := {
  Shipper : WireShipper;
  ShipTo : WireShipTo;
  Package : list WirePackage
}.

Record RequestInfo : Type := {
  RequestOption : string
}.

Record RateRequestBody : Type := {
  Request : RequestInfo;
  Shipment : WireShipment
}.

Record UPSRateRequest : Type := {
  RateRequest : RateRequestBody
}.

(** [transformAddress(address)]. *)
Definition transformAddress (address : DomainAddress) : WireAddress :=
  {| AddressLine :=
       if (0 <? List.length (street address))%nat
       then Some (street address) else None;
     City := city address;
     StateProvinceCode := stateOrProvince address;
     PostalCode := postalCode address;
     CountryCode := country address |}.

Section Request.

(** [n.toString()] of a number. *)
Variable Number_toString : Q -> string.

(** The callback of [request.packages.map]. *)
Definition transformPackage (pkg : DomainPackage) : WirePackage :=
  {| PackagingType := Some {| Code := "02" |};
     Dimensions :=
       match dimensions pkg with
       | Some d =>
           Some {| Dimensions_UnitOfMeasurement := {| Code := "IN" |};
                   Length := Number_toString (length d);
                   Width := Number_toString (width d);
                   Height := Number_toString (height d) |}
       | None => None
       end;
     PackageWeight :=
       {| Weight_UnitOfMeasurement := {| Code := "LBS" |};
          Weight := Number_toString (weight pkg) |} |}.

(** [transformRequest(request)], for an adapter configured with
    [shipperNumber]. *)
Definition transformRequest (shipperNumber : option string)
    (request : DomainRateRequest) : UPSRateRequest :=
  {| RateRequest :=
       {| Request := {| RequestOption := "Rate" |};
          Shipment :=
            {| Shipper :=
                 {| ShipperNumber :=
                      if Js.truthy_string shipperNumber then shipperNumber
                      else None;
                    Shipper_Address := transformAddress (origin request) |};
               ShipTo :=
                 {| ShipTo_Address :=
                      transformAddress (destination request) |};
               Package := map transformPackage (packages request) |} |} |}.

End Request.

End UPSWire.

(* ===================================================================== *)
(** ** http/client.ts: [NodeHttpClient] *)
(* ===================================================================== *)

Module NodeHttpClient.

(** [error.name]. *)
Definition error_name (e : JsError) : option string :=
  match e with
  | PlainError name _ => Some name
  | CarrierIntegrationError _ _ _ => Some "CarrierIntegrationError"
  | NonError _ => None
  end.

(** The [catch] block of [request]: what the client raises when [fetch]
    (or the reading of the body) has raised [error]. *)
Definition request_catch (error : JsError) : JsError :=
  match error_name error with
  | Some name =>
      if String.eqb name "AbortError"
      then PlainError "Error" "Request timeout"
      else error
  | None => error
  end.

End NodeHttpClient.

(* ===================================================================== *)
(** ** service.ts: the single-carrier entry point *)
(* ===================================================================== *)

Module SingleCarrier.

Section Lookup.

(** [s.toUpperCase()]. *)
Variable toUpperCase : string -> string.

(** [validationResult.error] of a failed [safeParse]. *)
Variable zodError : RateRequest -> JsError.

(** [this.config.carriers.find(c => c.getName().toUpperCase() ===
    carrierName.toUpperCase())]. *)
Definition findCarrier (cfg : CarrierIntegrationService.CarrierServiceConfig)
    (carrierName : string) : option Carrier.Carrier :=
  find (fun c => String.eqb (toUpperCase (Carrier.getName c))
                   (toUpperCase carrierName))
    (CarrierIntegrationService.carriers cfg).

(** [getRatesFromCarrier(carrierName, request)]. *)
Definition getRatesFromCarrier
    (cfg : CarrierIntegrationService.CarrierServiceConfig)
    (carrierName : string) (request : RateRequest)
  : Result (list RateQuote) :=
  if negb (RateRequestSchema request) then
    Throw (CarrierIntegrationService.invalid_request zodError request)
  else
    match findCarrier cfg carrierName with
    | None =>
        Throw (CarrierIntegrationError CARRIER_UNAVAILABLE
                 ("Carrier '" ++ carrierName ++ "' is not configured") None)
    | Some carrier => Carrier.getRates carrier request
    end.

End Lookup.

End SingleCarrier.

(* ===================================================================== *)
(** ** config.ts *)
(* ===================================================================== *)

Module Config.

(** The environment variables [createUPSAdapter] reads. *)
Record Env : Type := {
  UPS_BASE_URL : option string;
  UPS_OAUTH_TOKEN_URL : option string;
  UPS_CLIENT_ID : option string;
  UPS_CLIENT_SECRET : option string;
  UPS_OAUTH_SCOPE : option string;
  UPS_SHIPPER_NUMBER : option string
}.

(** The optional [config] argument. *)
Record Override : Type := {
  baseUrl : option string;
  oauth : option OAuth.OAuthConfig;
  shipperNumber : option string
}.

(** [config?.f]. *)
Definition field {A} (config : option Override) (f : Override -> option A)
  : option A :=
  match config with
  | Some c => f c
  | None => None
  end.

Definition missing_credentials : JsError :=
  PlainError "Error"
    ("UPS_CLIENT_ID and UPS_CLIENT_SECRET environment variables are required. "
       ++ "Set CARRIER_MODE=mock to run without credentials.").

(** [!s] for a string. *)
Definition is_empty (s : string) : bool :=
  match s with
  | EmptyString => true
  | String _ _ => false
  end.

(** [s || d] for a string [s]. *)
Definition or_literal (s d : string) : string :=
  if is_empty s then d else s.

(** [createUPSAdapter(httpClient, config, requireCredentials)]. *)
Definition createUPSAdapter (env : Env) (httpClient : HttpClient)
    (config : option Override) (requireCredentials : bool)
  : Result UPS.UPSAdapter :=
  let baseUrl :=
    Js.or_default (Js.or_string (field config baseUrl) (UPS_BASE_URL env))
      "https://wwwcie.ups.com" in
  let oauthConfig :=
    match field config oauth with
    | Some o => o
    | None =>
        {| OAuth.tokenUrl :=
             Js.or_default (UPS_OAUTH_TOKEN_URL env)
               (baseUrl ++ "/security/v1/oauth/token");
           OAuth.clientId := Js.or_default (UPS_CLIENT_ID env) EmptyString;
           OAuth.clientSecret :=
             Js.or_default (UPS_CLIENT_SECRET env) EmptyString;
           OAuth.scope := UPS_OAUTH_SCOPE env |}
    end in
  if requireCredentials
     && (is_empty (OAuth.clientId oauthConfig)
         || is_empty (OAuth.clientSecret oauthConfig))
  then Throw missing_credentials
  else
    let finalOAuthConfig :=
      {| OAuth.tokenUrl := OAuth.tokenUrl oauthConfig;
         OAuth.clientId :=
           or_literal (OAuth.clientId oauthConfig) "test-client-id";
         OAuth.clientSecret :=
           or_literal (OAuth.clientSecret oauthConfig) "test-client-secret";
         OAuth.scope := OAuth.scope oauthConfig |} in
    let oauthClient :=
      {| OAuth.config := finalOAuthConfig; OAuth.httpClient := httpClient |} in
    Ok {| UPS.config :=
            {| UPS.baseUrl := baseUrl;
               UPS.oauthClient := oauthClient;
               UPS.shipperNumber :=
                 Js.or_string (field config shipperNumber)
                   (UPS_SHIPPER_NUMBER env) |};
          UPS.httpClient := httpClient |}.

End Config.

(* ===================================================================== *)
(** ** server.ts *)
(* ===================================================================== *)

Module Server.

(** [getHttpStatusForError(code)]. *)
Definition getHttpStatusForError (code : ErrorCode) : Z :=
  match code with
  | AUTH_FAILED => 401
  | RATE_LIMITED => 429
  | INVALID_REQUEST => 400
  | CARRIER_UNAVAILABLE => 503
  | MALFORMED_RESPONSE => 502
  | NETWORK_ERROR => 502
  | TIMEOUT => 502
  end.

(** The string value of an [ErrorCode]. *)
Definition code_string (code : ErrorCode) : string :=
  match code with
  | AUTH_FAILED => "AUTH_FAILED"
  | RATE_LIMITED => "RATE_LIMITED"
  | INVALID_REQUEST => "INVALID_REQUEST"
  | CARRIER_UNAVAILABLE => "CARRIER_UNAVAILABLE"
  | MALFORMED_RESPONSE => "MALFORMED_RESPONSE"
  | NETWORK_ERROR => "NETWORK_ERROR"
  | TIMEOUT => "TIMEOUT"
  end.

(** The JSON document of a reply. *)
Inductive Reply : Type :=
| Success (carrier : option string) (quotes : list RateQuote) (count : nat)
| Failure (code message : string) (cause : option string).

Record HttpReply : Type := {
  reply_status : Z;
  reply_body : Reply
}.

(** The error handling middleware.  A [cause] whose [message] is
    [undefined] does not show in the JSON document. *)
Definition errorHandler (err : JsError) : HttpReply :=
  match err with
  | CarrierIntegrationError code message cause =>
      {| reply_status := getHttpStatusForError code;
         reply_body :=
           Failure (code_string code) message
             match cause with
             | Some c => error_message c
             | None => None
             end |}
  | _ =>
      {| reply_status := 500;
         reply_body :=
           Failure "INTERNAL_ERROR"
             (Js.or_default (error_message err) "Internal server error")
             None |}
  end.

(** The status, code and message of the middleware's reply. *)
Definition errorHandler_reply (err : JsError) : Z * string * string :=
  match reply_body (errorHandler err) with
  | Failure code message _ => (reply_status (errorHandler err), code, message)
  | Success _ _ _ => (reply_status (errorHandler err), EmptyString, EmptyString)
  end.

(** [res.json(...)] of a handler that did not set a status. *)
Definition ok (body : Reply) : HttpReply :=
  {| reply_status := 200; reply_body := body |}.

(** What [express.json()], which runs before every route, makes of the body
    of a request: the value of [req.body], or, when the body does not
    parse, an error that it hands to the error handling middleware, so
    that the route is not run. *)
Inductive Incoming : Type :=
| Unparsed (err : JsError)
| Parsed (rateRequest : RateRequest).

Section Endpoints.

Variable toUpperCase : string -> string.
Variable zodError : RateRequest -> JsError.

(** The module variable [service]. *)
Variable service : option CarrierIntegrationService.CarrierServiceConfig.

Definition not_initialized : JsError :=
  PlainError "Error" "Service not initialized".

(** [POST /api/rates]. *)
Definition postRates (rateRequest : RateRequest) : HttpReply :=
  match service with
  | None => errorHandler not_initialized
  | Some svc =>
      match CarrierIntegrationService.getRates zodError svc rateRequest with
      | Ok quotes => ok (Success None quotes (List.length quotes))
      | Throw error => errorHandler error
      end
  end.

(** A [POST /api/rates] request from its arrival on: [express.json()],
    then the route. *)
Definition receiveRates (incoming : Incoming) : HttpReply :=
  match incoming with
  | Unparsed err => errorHandler err
  | Parsed rateRequest => postRates rateRequest
  end.

(** [POST /api/rates/:carrier]. *)
Definition postCarrierRates (carrierName : string)
    (rateRequest : RateRequest) : HttpReply :=
  match service with
  | None => errorHandler not_initialized
  | Some svc =>
      match SingleCarrier.getRatesFromCarrier toUpperCase zodError svc
              carrierName rateRequest with
      | Ok quotes =>
          ok (Success (Some (toUpperCase carrierName)) quotes
                (List.length quotes))
      | Throw error => errorHandler error
      end
  end.

End Endpoints.

End Server.

(* ===================================================================== *)
(** ** Shapes of the caller queue *)
(* ===================================================================== *)

Module Flight.

(** A caller parked as a waiter on [p]. *)
Definition waits_on (p : PromiseId) (e : EventLoop.Parked) : bool :=
  match e with
  | (_, OAuth.Waiter, q) => (q =? p)%nat
  | (_, OAuth.Owner, _) => false
  end.

Definition is_owner (e : EventLoop.Parked) : bool :=
  match e with
  | (_, OAuth.Owner, _) => true
  | (_, OAuth.Waiter, _) => false
  end.

(** The queue agrees with the marker: with no acquisition in flight nobody
    is parked; with acquisition [p] in flight the queue is its owner
    followed by waiters on [p] only. *)
Definition well_parked (L : EventLoop.Loop) : bool :=
  match OAuth.tokenRefreshPromise (EventLoop.manager L),
        EventLoop.parked L with
  | None, [] => true
  | Some p, (_, OAuth.Owner, q) :: ws =>
      (q =? p)%nat && forallb (waits_on p) ws
  | _, _ => false
  end.

Definition is_settle (e : EventLoop.Event) : bool :=
  match e with
  | EventLoop.Settle _ _ _ => true
  | _ => false
  end.

Definition is_invoke (e : EventLoop.Event) : bool :=
  match e with
  | EventLoop.Invoke _ => true
  | _ => false
  end.

(** An event that cannot be answered from the cache of [st]: a
    [clearToken], or a call made when the token of [st] is not valid. *)
Definition misses (st : OAuth.State) (e : EventLoop.Event) : bool :=
  match e with
  | EventLoop.Invoke now => negb (OAuth.has_valid_token now st)
  | EventLoop.ClearToken => true
  | EventLoop.Settle _ _ _ => false
  end.

End Flight.

(* ===================================================================== *)
(** ** Measuring what a task dispatched *)
(* ===================================================================== *)

Module Budget.

(** From [w] to [w'] the log of requests only grew, by at most [tokens]
    token requests and [ratings] rating requests, and the clock did not go
    back. *)
Definition grows_by (w w' : World) (tokens ratings : nat) : Prop :=
  exists extra,
    sent w' = (sent w ++ extra)%list
    /\ (List.length (filter (fun r => negb (is_rating_request r)) extra)
        <= tokens)%nat
    /\ (List.length (filter is_rating_request extra) <= ratings)%nat
    /\ clock w <= clock w'.

(** The sign of a parsed number reversed. *)
Definition negate (d : Js.Decimal) : Js.Decimal :=
  match d with
  | Js.Infinite neg => Js.Infinite (negb neg)
  | Js.Finite neg m e => Js.Finite (negb neg) m e
  end.

(** A string that starts neither with white space nor with a sign. *)
Definition starts_plain (s : string) : bool :=
  String.eqb (Js.trim_start s) s
  && match s with
     | EmptyString => true
     | String ch _ => negb (Ascii.eqb ch "-") && negb (Ascii.eqb ch "+")
     end.

(** [shipment.Service?.Code || 'UNKNOWN']. *)
Definition serviceCodeOf (shipment : RatedShipmentEntry) : string :=
  Js.or_default
    (match Service shipment with
     | Some s => Service_Code s
     | None => None
     end)
    "UNKNOWN".

End Budget.

(* ===================================================================== *)
(** ** More sample data *)
(* ===================================================================== *)

Module Samples.

(** ASCII upper-casing, which [toUpperCase] is on ASCII names. *)
Definition upper_ascii (c : ascii) : ascii :=
  let n := nat_of_ascii c in
  if ((97 <=? n) && (n <=? 122))%nat then ascii_of_nat (n - 32) else c.

Fixpoint upper (s : string) : string :=
  match s with
  | EmptyString => EmptyString
  | String c rest => String (upper_ascii c) (upper rest)
  end.

Definition twoCarriers : CarrierIntegrationService.CarrierServiceConfig :=
  {| CarrierIntegrationService.carriers :=
       [Fixtures.failingCarrier; Fixtures.succeedingCarrier] |}.

Definition noEnv : Config.Env :=
  {| Config.UPS_BASE_URL := None;
     Config.UPS_OAUTH_TOKEN_URL := None;
     Config.UPS_CLIENT_ID := None;
     Config.UPS_CLIENT_SECRET := None;
     Config.UPS_OAUTH_SCOPE := None;
     Config.UPS_SHIPPER_NUMBER := None |}.

Definition realEnv : Config.Env :=
  {| Config.UPS_BASE_URL := Some "https://onlinetools.ups.com";
     Config.UPS_OAUTH_TOKEN_URL := None;
     Config.UPS_CLIENT_ID := Some "client-1";
     Config.UPS_CLIENT_SECRET := Some "secret-1";
     Config.UPS_OAUTH_SCOPE := None;
     Config.UPS_SHIPPER_NUMBER := Some "A1B2C3" |}.

Definition invalidRateRequest : RateRequest :=
  {| origin := origin Fixtures.validRateRequest;
     destination := destination Fixtures.validRateRequest;
     packages := [];
     serviceLevel := None |}.

End Samples.

(* ===================================================================== *)
(** * Properties *)
(* ===================================================================== *)

(** ** JavaScript strings and numbers *)

(** [s.length] counts UTF-16 code units: "US" has two, a letter of two or
    three bytes has one, a character outside the basic plane has two. *)
Example string_length_samples :
  Js.string_length "US" = 2%nat
  /\ Js.string_length EmptyString = 0%nat
  /\ Js.string_length
       (String (ascii_of_nat 195) (String (ascii_of_nat 169) "t")) = 2%nat
  /\ Js.string_length
       (String (ascii_of_nat 226)
          (String (ascii_of_nat 130) (String (ascii_of_nat 172) EmptyString)))
     = 1%nat
  /\ Js.string_length
       (String (ascii_of_nat 240)
          (String (ascii_of_nat 159)
             (String (ascii_of_nat 154)
                (String (ascii_of_nat 128) EmptyString)))) = 2%nat.
Proof. repeat split. Qed.

(** Every character of StrWhiteSpaceChar is skipped, and nothing else: the
    zero width space U+200B and the next line U+0085 are not white space. *)
Example trim_start_samples :
  let ch2 a b := String (ascii_of_nat a) (String (ascii_of_nat b) "7") in
  let ch3 a b c :=
    String (ascii_of_nat a)
      (String (ascii_of_nat b) (String (ascii_of_nat c) "7")) in
  map (fun n => Js.trim_start (String (ascii_of_nat n) "7"))
    [9; 10; 11; 12; 13; 32]%nat
  = ["7"; "7"; "7"; "7"; "7"; "7"]
  /\ Js.trim_start (ch2 194 160)%nat = "7"
  /\ map (fun c => Js.trim_start (ch3 226 128 c)%nat)
       [128; 129; 130; 131; 132; 133; 134; 135; 136; 137; 138; 168; 169;
        175]%nat
     = ["7"; "7"; "7"; "7"; "7"; "7"; "7"; "7"; "7"; "7"; "7"; "7"; "7"; "7"]
  /\ Js.trim_start (ch3 225 154 128)%nat = "7"
  /\ Js.trim_start (ch3 226 129 159)%nat = "7"
  /\ Js.trim_start (ch3 227 128 128)%nat = "7"
  /\ Js.trim_start (ch3 239 187 191)%nat = "7"
  /\ Js.trim_start (ch3 226 128 139)%nat = (ch3 226 128 139)%nat
  /\ Js.trim_start (ch2 194 133)%nat = (ch2 194 133)%nat
  /\ Js.trim_start (String (ascii_of_nat 8) "7") = String (ascii_of_nat 8) "7"
  /\ Js.trim_start "7 " = "7 ".
Proof. cbv zeta. repeat split. Qed.

(** [parseFloat] reads the longest numeric prefix after the white space. *)
Example parseFloat_samples :
  Js.parseFloat "25.50" = Some (Js.Finite false 2550 (-2))
  /\ Js.parseFloat "  12abc" = Some (Js.Finite false 12 0)
  /\ Js.parseFloat ".5" = Some (Js.Finite false 5 (-1))
  /\ Js.parseFloat "5." = Some (Js.Finite false 5 0)
  /\ Js.parseFloat "-1.5e3" = Some (Js.Finite true 15 2)
  /\ Js.parseFloat "1e" = Some (Js.Finite false 1 0)
  /\ Js.parseFloat "+Infinity" = Some (Js.Infinite false)
  /\ Js.parseFloat "abc" = None
  /\ Js.parseFloat EmptyString = None
  /\ Js.parseFloat "." = None
  /\ Js.parseFloat "- 1" = None
  /\ Js.number_to_string 401 = "401"
  /\ Js.number_to_string 0 = "0"
  /\ Js.number_to_string (-5) = "-5".
Proof. repeat split. Qed.

(** ** Token validity and the fast path of [getAccessToken] *)

Lemma isTokenValid_spec (now : Z) (t : OAuth.OAuthToken) :
  OAuth.isTokenValid now t = true <-> now < OAuth.expiresAt t - 60000.
Proof.
  unfold OAuth.isTokenValid, OAuth.bufferMs. apply Z.ltb_lt.
Qed.

Lemma isTokenValid_false (now : Z) (t : OAuth.OAuthToken) :
  OAuth.isTokenValid now t = false <-> OAuth.expiresAt t - 60000 <= now.
Proof.
  unfold OAuth.isTokenValid, OAuth.bufferMs. apply Z.ltb_ge.
Qed.

Lemma enter_valid c now fresh st t :
  OAuth.token st = Some t ->
  OAuth.isTokenValid now t = true ->
  OAuth.getAccessToken_enter c now fresh st
  = (OAuth.Immediately (OAuth.accessToken t), st).
Proof.
  intros Ht Hv. unfold OAuth.getAccessToken_enter. now rewrite Ht, Hv.
Qed.

Lemma enter_invalid_idle c now fresh st :
  OAuth.has_valid_token now st = false ->
  OAuth.tokenRefreshPromise st = None ->
  OAuth.getAccessToken_enter c now fresh st
  = (OAuth.Starts fresh (OAuth.acquireToken_request c),
     {| OAuth.token := OAuth.token st;
        OAuth.tokenRefreshPromise := Some fresh |}).
Proof.
  unfold OAuth.has_valid_token, OAuth.getAccessToken_enter.
  intros Hv Hp. destruct (OAuth.token st) as [t|].
  - now rewrite Hv, Hp.
  - now rewrite Hp.
Qed.

Lemma enter_invalid_in_flight c now fresh st p :
  OAuth.has_valid_token now st = false ->
  OAuth.tokenRefreshPromise st = Some p ->
  OAuth.getAccessToken_enter c now fresh st = (OAuth.Joins p, st).
Proof.
  unfold OAuth.has_valid_token, OAuth.getAccessToken_enter.
  intros Hv Hp. destruct (OAuth.token st) as [t|].
  - now rewrite Hv, Hp.
  - now rewrite Hp.
Qed.

Lemma world_eta (w : World) :
  {| clock := clock w; oauth := oauth w; sent := sent w |} = w.
Proof. now destruct w. Qed.

Lemma app_singleton_neq {A} (l : list A) (x : A) : (l ++ [x])%list <> l.
Proof.
  intros H. apply (f_equal (@List.length A)) in H.
  rewrite List.length_app in H. simpl in H. lia.
Qed.

(** What one call of [getAccessToken] does with a cached token, case by
    case. *)
Lemma getAccessToken_cached_cases (c : OAuth.OAuthClient) (w : World)
    (t : OAuth.OAuthToken) :
  OAuth.token (oauth w) = Some t ->
  (clock w < OAuth.expiresAt t - 60000 ->
   getAccessToken c w = (Settles (Ok (OAuth.accessToken t)), w))
  /\ (OAuth.expiresAt t - 60000 <= clock w ->
      forall p, OAuth.tokenRefreshPromise (oauth w) = Some p ->
      getAccessToken c w = (Pending p, w))
  /\ (OAuth.expiresAt t - 60000 <= clock w ->
      OAuth.tokenRefreshPromise (oauth w) = None ->
      sent (snd (getAccessToken c w))
      = (sent w ++ [OAuth.acquireToken_request (OAuth.config c)])%list).
Proof.
  intros Ht. repeat split.
  - intros Hlt. unfold getAccessToken.
    rewrite (enter_valid _ _ _ _ t Ht) by now apply isTokenValid_spec.
    now rewrite world_eta.
  - intros Hge p Hp. unfold getAccessToken.
    rewrite (enter_invalid_in_flight _ _ _ _ p); auto.
    + now rewrite world_eta.
    + unfold OAuth.has_valid_token. rewrite Ht. now apply isTokenValid_false.
  - intros Hge Hp. unfold getAccessToken.
    rewrite enter_invalid_idle; auto.
    + destruct (transport _ _ _) as [elapsed out].
      destruct (OAuth.getAccessToken_resume _ _ _) as [r st']. reflexivity.
    + unfold OAuth.has_valid_token. rewrite Ht. now apply isTokenValid_false.
Qed.

(** C3 (as amended).  With a cached token of expiry [T], [getAccessToken]
    returns the cached string at once, leaving the world as it was (no
    request dispatched), if and only if the clock is strictly before
    [T - 60 s].  From [T - 60 s] on the token counts as invalid: when no
    acquisition is in flight the call starts one (it dispatches the token
    request), and when one is in flight the call dispatches nothing and
    awaits it. *)
Theorem cached_token_buffer_boundary (c : OAuth.OAuthClient) (w : World)
    (t : OAuth.OAuthToken) :
  OAuth.token (oauth w) = Some t ->
  ((fst (getAccessToken c w) = Settles (Ok (OAuth.accessToken t))
    /\ sent (snd (getAccessToken c w)) = sent w)
   <-> clock w < OAuth.expiresAt t - 60000)
  /\ (OAuth.expiresAt t - 60000 <= clock w ->
      match OAuth.tokenRefreshPromise (oauth w) with
      | None =>
          sent (snd (getAccessToken c w))
          = (sent w ++ [OAuth.acquireToken_request (OAuth.config c)])%list
      | Some p =>
          getAccessToken c w = (Pending p, w)
      end).
Proof.
  intros Ht.
  destruct (getAccessToken_cached_cases c w t Ht) as (Hfast & Hjoin & Hstart).
  split.
  - split.
    + intros [Hres Hsent].
      destruct (Z.lt_ge_cases (clock w) (OAuth.expiresAt t - 60000))
        as [Hlt | Hge]; [exact Hlt | exfalso].
      destruct (OAuth.tokenRefreshPromise (oauth w)) as [p|] eqn:Hp.
      * rewrite (Hjoin Hge p eq_refl) in Hres. discriminate.
      * rewrite (Hstart Hge eq_refl) in Hsent.
        now apply app_singleton_neq in Hsent.
    + intros Hlt. now rewrite (Hfast Hlt).
  - intros Hge.
    destruct (OAuth.tokenRefreshPromise (oauth w)) as [p|] eqn:Hp.
    + now apply Hjoin.
    + now apply Hstart.
Qed.

Lemma cached_token_buffer_boundary_witness :
  let c := Fixtures.oauthClient [] in
  let w := Fixtures.holding 1000 3600000 in
  OAuth.token (oauth w) = Some {| OAuth.accessToken := "cached-token";
                                  OAuth.expiresAt := 3600000;
                                  OAuth.tokenType := "Bearer" |}
  /\ ((fst (getAccessToken c w) = Settles (Ok "cached-token")
       /\ sent (snd (getAccessToken c w)) = sent w)
      <-> clock w < 3600000 - 60000).
Proof.
  intros c w. split; [reflexivity|].
  exact (proj1 (cached_token_buffer_boundary c w _ eq_refl)).
Defined.

(** C3 as stated fails where a refresh is already in flight: the expired
    token is not used, yet no new acquisition is triggered and no request is
    dispatched; the call awaits the acquisition in progress. *)
Lemma cached_token_in_flight_counterexample :
  ~ (forall (c : OAuth.OAuthClient) (w : World) (t : OAuth.OAuthToken),
        OAuth.token (oauth w) = Some t ->
        OAuth.expiresAt t - 60000 <= clock w ->
        sent (snd (getAccessToken c w))
        = (sent w ++ [OAuth.acquireToken_request (OAuth.config c)])%list).
Proof.
  intros H.
  specialize (H (Fixtures.oauthClient []) Fixtures.refreshing _ eq_refl).
  cbn in H. assert (Hc : 100000 - 60000 <= 100000) by lia.
  specialize (H Hc). discriminate H.
Qed.

(** ** Token acquisition *)


Lemma token_field_not_null (b : Body) (tok : string) :
  access_token (as_token b) = Some tok -> is_null b = false.
Proof. destruct b; cbn; congruence. Qed.

Lemma acquireToken_falsy_fields (now : Z) (r : HttpResponse) :
  status r = 200 ->
  is_null (response_body r) = false ->
  Js.truthy_string (access_token (as_token (response_body r))) = false
  \/ Js.truthy_number (expires_in (as_token (response_body r))) = false ->
  OAuth.acquireToken_resume now (Responds r)
  = Throw OAuth.missing_required_fields.
Proof.
  intros Hs Hn H. unfold OAuth.acquireToken_resume, OAuth.acquireToken_try.
  apply Z.eqb_eq in Hs. rewrite Hs, Hn. cbn [negb].
  destruct (access_token _) as [tok|], (expires_in _) as [secs|];
    try reflexivity.
  destruct H as [H | H]; rewrite H; cbn; try reflexivity.
  now rewrite orb_true_r.
Qed.


Lemma acquireToken_success (now : Z) (r : HttpResponse) (tok : string)
    (secs : Z) :
  status r = 200 ->
  access_token (as_token (response_body r)) = Some tok ->
  expires_in (as_token (response_body r)) = Some secs ->
  tok <> EmptyString -> secs <> 0 ->
  OAuth.acquireToken_resume now (Responds r)
  = Ok {| OAuth.accessToken := tok;
          OAuth.tokenType :=
            Js.or_default (token_type (as_token (response_body r))) "Bearer";
          OAuth.expiresAt := now + secs * 1000 |}.
Proof.
  intros Hs Ha He Ht Hz.
  unfold OAuth.acquireToken_resume, OAuth.acquireToken_try.
  apply Z.eqb_eq in Hs.
  rewrite Hs, (token_field_not_null _ _ Ha), Ha, He. cbn [negb].
  destruct tok; [congruence|]. destruct secs; [congruence| |]; reflexivity.
Qed.


(** A call that finds neither a valid token nor a refresh in progress runs
    one acquisition to its end. *)
Lemma getAccessToken_acquires (c : OAuth.OAuthClient) (w : World)
    (elapsed : Z) (out : TransportOutcome) :
  OAuth.has_valid_token (clock w) (oauth w) = false ->
  OAuth.tokenRefreshPromise (oauth w) = None ->
  transport (OAuth.httpClient c) (sent w)
    (OAuth.acquireToken_request (OAuth.config c)) = (elapsed, out) ->
  let now := clock w + Z.max 0 elapsed in
  let sent' := (sent w ++ [OAuth.acquireToken_request (OAuth.config c)])%list in
  getAccessToken c w
  = match OAuth.acquireToken_resume now out with
    | Ok t =>
        (Settles (Ok (OAuth.accessToken t)),
         {| clock := now;
            oauth := {| OAuth.token := Some t;
                        OAuth.tokenRefreshPromise := None |};
            sent := sent' |})
    | Throw e =>
        (Settles (Throw e),
         {| clock := now;
            oauth := {| OAuth.token := OAuth.token (oauth w);
                        OAuth.tokenRefreshPromise := None |};
            sent := sent' |})
    end.
Proof.
  intros Hv Hp Ht now sent'. unfold getAccessToken.
  rewrite enter_invalid_idle by assumption. rewrite Ht.
  fold now. destruct (OAuth.acquireToken_resume now out); reflexivity.
Qed.




(** C10.  On a 200 token response that carries both required fields,
    [expires_in] being [0] or [access_token] being the empty string, the
    acquiring call fails with MALFORMED_RESPONSE: presence is decided by
    truthiness. *)
Theorem falsy_token_fields_are_malformed (c : OAuth.OAuthClient) (w : World)
    (elapsed : Z) (r : HttpResponse) (tok : string) (secs : Z) :
  OAuth.has_valid_token (clock w) (oauth w) = false ->
  OAuth.tokenRefreshPromise (oauth w) = None ->
  transport (OAuth.httpClient c) (sent w)
    (OAuth.acquireToken_request (OAuth.config c)) = (elapsed, Responds r) ->
  status r = 200 ->
  access_token (as_token (response_body r)) = Some tok ->
  expires_in (as_token (response_body r)) = Some secs ->
  secs = 0 \/ tok = EmptyString ->
  fst (getAccessToken c w)
  = Settles (Throw (CarrierIntegrationError MALFORMED_RESPONSE
                      "OAuth response missing required fields"
                      (Some (PlainError "Error"
                               "Invalid OAuth response structure"))))
  /\ OAuth.token (oauth (snd (getAccessToken c w))) = OAuth.token (oauth w).
Proof.
  intros Hv Hp Ht Hs Ha He Hfalsy.
  rewrite (getAccessToken_acquires c w elapsed _ Hv Hp Ht).
  rewrite (acquireToken_falsy_fields _ r Hs).
  - split; reflexivity.
  - exact (token_field_not_null _ _ Ha).
  - rewrite Ha, He. destruct Hfalsy as [-> | ->]; auto.
Qed.

Lemma falsy_token_fields_are_malformed_witness :
  let script := [(25, Fixtures.respond 200 (Fixtures.tokenBody "test-token-123" 0))] in
  result_code_of_run (fst (getAccessToken (Fixtures.oauthClient script)
                             (Fixtures.start 1000)))
  = Some MALFORMED_RESPONSE.
Proof.
  intros script.
  rewrite (proj1 (falsy_token_fields_are_malformed
                    (Fixtures.oauthClient script) (Fixtures.start 1000) 25 _
                    "test-token-123" 0
                    eq_refl eq_refl eq_refl eq_refl eq_refl eq_refl
                    (or_introl eq_refl))).
  reflexivity.
Defined.

(** ** Single flight *)

Section SingleFlight.

Import EventLoop.

Variable c : OAuth.OAuthConfig.

Lemma run_cons (L : Loop) (e : Event) (es : list Event) :
  run c L (e :: es) = run c (step c L e) es.
Proof. reflexivity. Qed.

Lemma resume_waiter r st :
  OAuth.getAccessToken_resume OAuth.Waiter r st = (answer r, st).
Proof. destruct r; reflexivity. Qed.

Lemma resume_owner r st :
  OAuth.getAccessToken_resume OAuth.Owner r st
  = (answer r,
     {| OAuth.token := match r with
                       | Ok t => Some t
                       | Throw _ => OAuth.token st
                       end;
        OAuth.tokenRefreshPromise := None |}).
Proof. destruct r; reflexivity. Qed.

Lemma wake_waiters p r k n st :
  wake p r (waiters p k n) st
  = (map (fun i => (i, answer r)) (seq k n), [], st).
Proof.
  revert k. induction n as [|n IH]; intros k; [reflexivity|].
  unfold waiters in *. cbn [seq map wake].
  rewrite Nat.eqb_refl, resume_waiter, IH. reflexivity.
Qed.

(** While a refresh is in flight and the cached token is not valid, every
    further call parks as a waiter and nothing else changes. *)
Lemma run_joins (L : Loop) (p : PromiseId) (nows : list Z) :
  OAuth.tokenRefreshPromise (manager L) = Some p ->
  Forall (fun now => OAuth.has_valid_token now (manager L) = false) nows ->
  run c L (map Invoke nows)
  = {| manager := manager L;
       dispatched := dispatched L;
       parked := parked L ++ waiters p (invoked L) (List.length nows);
       answered := answered L;
       invoked := (invoked L + List.length nows)%nat |}.
Proof.
  intros Hp Hall. revert L Hp Hall.
  induction nows as [|now nows IH]; intros L Hp Hall.
  - cbn. rewrite app_nil_r, Nat.add_0_r. now destruct L.
  - inversion Hall as [|? ? Hnow Hrest]; subst.
    cbn [map]. rewrite run_cons. unfold step at 1.
    rewrite (enter_invalid_in_flight c now _ _ p Hnow Hp).
    rewrite IH; cbn [manager dispatched parked answered invoked]; auto.
    rewrite <- app_assoc. cbn [List.length app].
    replace (S (invoked L) + List.length nows)%nat
      with (invoked L + S (List.length nows))%nat by lia.
    reflexivity.
Qed.

(** The first of the calls starts the acquisition; the others join it. *)
Lemma run_first_starts (L : Loop) (now : Z) (nows : list Z) :
  OAuth.tokenRefreshPromise (manager L) = None ->
  Forall (fun t => OAuth.has_valid_token t (manager L) = false)
         (now :: nows) ->
  run c L (map Invoke (now :: nows))
  = {| manager :=
         {| OAuth.token := OAuth.token (manager L);
            OAuth.tokenRefreshPromise :=
              Some (List.length (dispatched L)) |};
       dispatched := dispatched L ++ [OAuth.acquireToken_request c];
       parked :=
         parked L
           ++ (invoked L, OAuth.Owner, List.length (dispatched L))
           :: waiters (List.length (dispatched L)) (S (invoked L))
                (List.length nows);
       answered := answered L;
       invoked := (invoked L + S (List.length nows))%nat |}.
Proof.
  intros Hp Hall. inversion Hall as [|? ? Hnow Hrest]; subst.
  cbn [map]. rewrite run_cons.
  unfold step at 1. rewrite (enter_invalid_idle c now _ _ Hnow Hp).
  rewrite (run_joins _ (List.length (dispatched L))); cbn; auto.
  f_equal.
  - now rewrite <- app_assoc.
  - lia.
Qed.

End SingleFlight.

(** C2.  Take a token manager with no acquisition in flight and nobody
    parked, and [N >= 1] calls of [getAccessToken], each made at a moment
    when the cached token is not valid and before the token request
    settles.  Then exactly one token request has been dispatched when the
    calls have been made, and when that request settles (successfully or
    not) all [N] callers settle with one and the same answer, nobody stays
    parked, no further request has been dispatched, and the in-flight
    marker is cleared. *)
Theorem single_flight (c : OAuth.OAuthConfig) (L : EventLoop.Loop)
    (nows : list Z) (settledAt : Z) (out : TransportOutcome) :
  nows <> [] ->
  EventLoop.parked L = [] ->
  OAuth.tokenRefreshPromise (EventLoop.manager L) = None ->
  Forall (fun now => OAuth.has_valid_token now (EventLoop.manager L) = false)
         nows ->
  let p := List.length (EventLoop.dispatched L) in
  let called := EventLoop.run c L (map EventLoop.Invoke nows) in
  let final := EventLoop.run c called [EventLoop.Settle p settledAt out] in
  let r := EventLoop.answer (OAuth.acquireToken_resume settledAt out) in
  EventLoop.dispatched called
  = (EventLoop.dispatched L ++ [OAuth.acquireToken_request c])%list
  /\ EventLoop.dispatched final = EventLoop.dispatched called
  /\ EventLoop.answered final
     = (EventLoop.answered L
          ++ map (fun i => (i, r))
               (seq (EventLoop.invoked L) (List.length nows)))%list
  /\ EventLoop.parked final = []
  /\ OAuth.tokenRefreshPromise (EventLoop.manager final) = None.
Proof.
  intros Hne Hparked Hp Hall p called final r.
  destruct nows as [|now nows]; [congruence|].
  assert (Hcalled := run_first_starts c L now nows Hp Hall).
  fold called in Hcalled. fold p in Hcalled. rewrite Hparked in Hcalled.
  cbn [app] in Hcalled.
  assert (Hfinal : final
    = {| EventLoop.manager :=
           {| OAuth.token :=
                match OAuth.acquireToken_resume settledAt out with
                | Ok t => Some t
                | Throw _ => OAuth.token (EventLoop.manager L)
                end;
              OAuth.tokenRefreshPromise := None |};
         EventLoop.dispatched :=
           EventLoop.dispatched L ++ [OAuth.acquireToken_request c];
         EventLoop.parked := [];
         EventLoop.answered :=
           EventLoop.answered L
             ++ (EventLoop.invoked L, r)
             :: map (fun i => (i, r))
                  (seq (S (EventLoop.invoked L)) (List.length nows));
         EventLoop.invoked :=
           (EventLoop.invoked L + S (List.length nows))%nat |}).
  { unfold final. rewrite Hcalled. cbn [EventLoop.run fold_left EventLoop.step
      EventLoop.parked EventLoop.manager EventLoop.dispatched
      EventLoop.answered EventLoop.invoked EventLoop.wake].
    rewrite Nat.eqb_refl, resume_owner, wake_waiters. reflexivity. }
  rewrite Hfinal, Hcalled. cbn. repeat split; reflexivity.
Qed.

Lemma single_flight_witness :
  let c := Fixtures.oauthConfig in
  let L := EventLoop.idle OAuth.initial in
  let called := EventLoop.run c L (map EventLoop.Invoke [0; 1; 2; 3; 4]) in
  let final :=
    EventLoop.run c called
      [EventLoop.Settle 0%nat 30
         (Fixtures.respond 200 (Fixtures.tokenBody "concurrent-token" 3600))] in
  EventLoop.dispatched called = [OAuth.acquireToken_request c]
  /\ EventLoop.dispatched final = EventLoop.dispatched called
  /\ EventLoop.answered final
     = [ (0%nat, Ok "concurrent-token"); (1%nat, Ok "concurrent-token");
         (2%nat, Ok "concurrent-token"); (3%nat, Ok "concurrent-token");
         (4%nat, Ok "concurrent-token") ]
  /\ EventLoop.parked final = []
  /\ OAuth.tokenRefreshPromise (EventLoop.manager final) = None.
Proof.
  intros c L called final.
  refine (single_flight c L [0; 1; 2; 3; 4] 30 _ _ eq_refl eq_refl _).
  - discriminate.
  - repeat constructor.
Defined.

(** ** The adapter: dispatch and classification *)

Lemma request_run (client : HttpClient) (req : HttpRequest) (w : World)
    (elapsed : Z) (out : TransportOutcome) :
  transport client (sent w) req = (elapsed, out) ->
  request client req w
  = (match out with
     | Responds r => Settles (Ok r)
     | Raises e => Settles (Throw e)
     end,
     after_request w req elapsed).
Proof.
  intros H. unfold request. rewrite H. now destruct out.
Qed.

Section Adapter.

Variable Date_getTime : string -> Js.Number.
Variable Date_drift : nat -> Z * Z.
Variable a : UPS.UPSAdapter.
Variable request0 : RateRequest.

Let oc := UPS.oauthClient (UPS.config a).

Lemma transformShipment_throws dateNow idNow s e :
  UPS.transformShipment Date_getTime dateNow idNow s = Throw e ->
  error_code e = Some MALFORMED_RESPONSE.
Proof.
  unfold UPS.transformShipment.
  destruct (UPS.selectCharges s) as [ch|]; [|intros [= <-]; reflexivity].
  destruct (MonetaryValue ch) as [v|]; [|intros [= <-]; reflexivity].
  destruct (negb _); [intros [= <-]; reflexivity|].
  destruct (Js.parseFloat v); [discriminate|intros [= <-]; reflexivity].
Qed.

Lemma map_throwing_throws {A B} (f : nat -> A -> Result B) (l : list A) i e :
  map_throwing f i l = Throw e -> exists j x, In x l /\ f j x = Throw e.
Proof.
  revert i. induction l as [|x l IH]; intros i; cbn; [discriminate|].
  destruct (f i x) as [y|e'] eqn:Hx.
  - destruct (map_throwing f (S i) l) as [ys|e''] eqn:Hl; [discriminate|].
    intros [= <-]. destruct (IH _ Hl) as (j & x' & Hin & Hf).
    exists j, x'. auto.
  - intros [= <-]. exists i, x. auto.
Qed.

Lemma map_throwing_ok {A B} (f : nat -> A -> Result B) (l : list A) i :
  (forall j x, In x l -> exists y, f j x = Ok y) ->
  exists ys, map_throwing f i l = Ok ys /\ List.length ys = List.length l.
Proof.
  revert i. induction l as [|x l IH]; intros i H; cbn.
  - exists []. auto.
  - destruct (H i x (or_introl eq_refl)) as [y Hy]. rewrite Hy.
    destruct (IH (S i)) as (ys & Hys & Hlen); [intros; apply H; now right|].
    rewrite Hys. exists (y :: ys). cbn. auto.
Qed.

(** [transformResponse] throws nothing but [CarrierIntegrationError]s. *)
Lemma transformResponse_throws clock r e :
  UPS.transformResponse Date_getTime clock r = Throw e ->
  is_carrier_error e = true.
Proof.
  unfold UPS.transformResponse.
  destruct (RateResponse r) as [env|]; [|intros [= <-]; reflexivity].
  destruct (UPS.not_success_code _); [intros [= <-]; reflexivity|].
  destruct (RatedShipment env) as [[|s l]|]; try discriminate.
  intros H. apply map_throwing_throws in H. destruct H as (j & x & _ & Hx).
  apply transformShipment_throws in Hx. now destruct e.
Qed.

(** The transformation of a body inside the [try] of [getRates]: the
    [TypeError] that a null body raises is caught there and wrapped. *)
Lemma catch_transformResponse (b : Body) (w : World) :
  catch (UPS.transformResponseM Date_getTime Date_drift b) UPS.getRates_catch w
  = (Settles
       (if is_null b then
          Throw (CarrierIntegrationError NETWORK_ERROR
                   "Network error communicating with UPS API"
                   (Some UPS.null_body))
        else
          UPS.transformResponse Date_getTime
            (UPS.readings Date_drift (clock w)) (as_rate b)), w).
Proof.
  unfold catch, UPS.transformResponseM, bind, Date_now, lift,
    UPS.transformBody.
  destruct (is_null b); [reflexivity|].
  destruct (UPS.transformResponse _ _ _) as [qs|e] eqn:H; [reflexivity|].
  unfold UPS.getRates_catch. now rewrite (transformResponse_throws _ _ _ H).
Qed.

Lemma getRates_dispatch (w w1 : World) (tok : string) :
  getAccessToken oc w = (Settles (Ok tok), w1) ->
  UPS.getRates Date_getTime Date_drift a request0 w
  = catch (UPS.getRates_try Date_getTime Date_drift a
             (UPS.rateRequest a request0 tok))
      UPS.getRates_catch w1.
Proof.
  intros H. unfold UPS.getRates, bind at 1. fold oc. now rewrite H.
Qed.

(** The first dispatch, when it does not answer 401. *)
Lemma getRates_first_dispatch (w w1 : World) (tok : string) (elapsed : Z)
    (out : TransportOutcome) :
  getAccessToken oc w = (Settles (Ok tok), w1) ->
  transport (UPS.httpClient a) (sent w1) (UPS.rateRequest a request0 tok)
  = (elapsed, out) ->
  let w2 := after_request w1 (UPS.rateRequest a request0 tok) elapsed in
  match out with
  | Raises e =>
      UPS.getRates Date_getTime Date_drift a request0 w
      = UPS.getRates_catch e w2
  | Responds r =>
      status r <> 401 ->
      UPS.getRates Date_getTime Date_drift a request0 w
      = if status r =? 429 then
          (Settles (Throw (CarrierIntegrationError RATE_LIMITED
                             "UPS API rate limit exceeded" None)), w2)
        else if 500 <=? status r then
          (Settles (Throw (CarrierIntegrationError CARRIER_UNAVAILABLE
                             ("UPS API returned server error: "
                                ++ Js.number_to_string (status r)) None)),
           w2)
        else if negb (status r =? 200) then
          (Settles (Throw (CarrierIntegrationError INVALID_REQUEST
                             ("UPS API returned error status: "
                                ++ Js.number_to_string (status r)) None)),
           w2)
        else if is_null (response_body r) then
          (Settles (Throw (CarrierIntegrationError NETWORK_ERROR
                             "Network error communicating with UPS API"
                             (Some UPS.null_body))), w2)
        else
          (Settles (UPS.transformResponse Date_getTime
                      (UPS.readings Date_drift (clock w2))
                      (as_rate (response_body r))), w2)
  end.
Proof.
  intros Htok Hout w2. rewrite (getRates_dispatch w w1 tok Htok).
  destruct out as [r|e].
  - intros H401. apply Z.eqb_neq in H401.
    unfold catch at 1, UPS.getRates_try, bind at 1.
    rewrite (request_run _ _ _ _ _ Hout). fold w2. rewrite H401.
    destruct (status r =? 429); [reflexivity|].
    destruct (500 <=? status r); [reflexivity|].
    destruct (negb (status r =? 200)); [reflexivity|].
    transitivity
      (catch (UPS.transformResponseM Date_getTime Date_drift (response_body r))
         UPS.getRates_catch w2); [reflexivity|].
    rewrite catch_transformResponse.
    now destruct (is_null (response_body r)).
  - unfold catch at 1, UPS.getRates_try, bind at 1.
    rewrite (request_run _ _ _ _ _ Hout). reflexivity.
Qed.

End Adapter.







(** ** The adapter: the 401 retry *)

Section Retry.

Variable Date_getTime : string -> Js.Number.
Variable Date_drift : nat -> Z * Z.
Variable a : UPS.UPSAdapter.
Variable request0 : RateRequest.

Let oc := UPS.oauthClient (UPS.config a).

(** What [getRates] does once its first dispatch has answered 401: the
    cached token is cleared, [getAccessToken] is called again, the request
    is dispatched once more under the new token, and the body of that
    second response goes to [transformResponse], whatever its status.
    Nothing is dispatched after that. *)
Lemma getRates_retry (w w1 : World) (tok : string) (elapsed : Z)
    (r : HttpResponse) :
  getAccessToken oc w = (Settles (Ok tok), w1) ->
  transport (UPS.httpClient a) (sent w1) (UPS.rateRequest a request0 tok)
  = (elapsed, Responds r) ->
  status r = 401 ->
  let first := UPS.rateRequest a request0 tok in
  let w2 := after_request w1 first elapsed in
  let cleared :=
    {| clock := clock w2; oauth := OAuth.clearToken (oauth w2);
       sent := sent w2 |} in
  UPS.getRates Date_getTime Date_drift a request0 w
  = match getAccessToken oc cleared with
    | (Settles (Ok newToken), w3) =>
        let retry :=
          UPS.with_authorization first ("Bearer " ++ newToken) in
        let w4 :=
          after_request w3 retry
            (fst (transport (UPS.httpClient a) (sent w3) retry)) in
        match snd (transport (UPS.httpClient a) (sent w3) retry) with
        | Responds retryResponse =>
            (Settles
               (if is_null (response_body retryResponse) then
                  Throw (CarrierIntegrationError NETWORK_ERROR
                           "Network error communicating with UPS API"
                           (Some UPS.null_body))
                else
                  UPS.transformResponse Date_getTime
                    (UPS.readings Date_drift (clock w4))
                    (as_rate (response_body retryResponse))), w4)
        | Raises e => UPS.getRates_catch e w4
        end
    | (Settles (Throw e), w3) => UPS.getRates_catch e w3
    | (Pending p, w3) => (Pending p, w3)
    end.
Proof.
  intros Htok Hout H401 first w2 cleared.
  rewrite (getRates_dispatch Date_getTime Date_drift a request0 w w1 tok
             Htok).
  unfold catch at 1, UPS.getRates_try, bind at 1.
  rewrite (request_run _ _ _ _ _ Hout). fold first. fold w2.
  apply Z.eqb_eq in H401. rewrite H401.
  unfold bind at 1, clearToken at 1. fold cleared.
  unfold bind at 1. fold oc.
  destruct (getAccessToken oc cleared) as [[[newToken|e]|p] w3];
    [|reflexivity|reflexivity].
  cbv zeta. unfold bind at 1.
  destruct (transport (UPS.httpClient a) (sent w3)
              (UPS.with_authorization first ("Bearer " ++ newToken)))
    as [elapsed' out'] eqn:Hretry.
  rewrite (request_run _ _ _ _ _ Hretry). cbn [fst snd].
  destruct out' as [retryResponse|e]; [|reflexivity].
  apply (catch_transformResponse Date_getTime Date_drift).
Qed.

End Retry.

(** C1, at the input where the code departs from it.  The first rating
    dispatch answers 401; the token is refreshed and the request is
    dispatched a second time under the new token, and never a third time.
    The retry is answered with status 429: [getRates] does not classify
    that status, it hands the body to [transformResponse] and fails with
    MALFORMED_RESPONSE, whereas the same response to a first dispatch fails
    with RATE_LIMITED.  A retry answered with status 500 and a well-formed
    body even yields quotes. *)
Theorem retry_status_is_not_classified :
  let run script :=
    UPS.getRates (fun _ => Js.NaN) (fun _ => (0, 0)) (Fixtures.adapter script)
      Fixtures.validRateRequest (Fixtures.start 1000) in
  fst (run Fixtures.retryRateLimited)
  = Settles (Throw (CarrierIntegrationError MALFORMED_RESPONSE
                      "UPS response missing RateResponse" None))
  /\ map Fixtures.authorization
       (rating_dispatches (snd (run Fixtures.retryRateLimited)))
     = [ Some "Bearer expired-token-xyz789";
         Some "Bearer test-access-token-abc123xyz" ]
  /\ fst (run Fixtures.rateLimited)
     = Settles (Throw (CarrierIntegrationError RATE_LIMITED
                         "UPS API rate limit exceeded" None))
  /\ (exists quote,
        fst (run Fixtures.retryServerError) = Settles (Ok [quote])).
Proof.
  cbv zeta. repeat split; try reflexivity.
  eexists. vm_compute. reflexivity.
Qed.

Section DispatchCount.

Variable Date_getTime : string -> Js.Number.
Variable Date_drift : nat -> Z * Z.
Variable a : UPS.UPSAdapter.
Variable request0 : RateRequest.

Lemma getAccessToken_rating_dispatches (c : OAuth.OAuthClient) (w : World) :
  rating_dispatches (snd (getAccessToken c w)) = rating_dispatches w.
Proof.
  unfold getAccessToken, OAuth.getAccessToken_enter, rating_dispatches.
  destruct (OAuth.token (oauth w)) as [t|];
    [destruct (OAuth.isTokenValid (clock w) t)|];
    try destruct (OAuth.tokenRefreshPromise (oauth w));
    try reflexivity;
    destruct (transport _ _ _) as [elapsed out];
    destruct (OAuth.getAccessToken_resume _ _ _) as [r st'];
    cbn [snd sent]; rewrite filter_app; cbn; apply app_nil_r.
Qed.

Lemma getRates_catch_world {A} (e : JsError) (w : World) :
  snd (@UPS.getRates_catch A e w) = w.
Proof.
  unfold UPS.getRates_catch.
  destruct (is_carrier_error e); [reflexivity|].
  destruct (UPS.is_timeout e); reflexivity.
Qed.

Lemma after_rating_request (w : World) (req : HttpRequest) (elapsed : Z) :
  is_rating_request req = true ->
  rating_dispatches (after_request w req elapsed)
  = (rating_dispatches w ++ [req])%list.
Proof.
  intros H. unfold rating_dispatches, after_request. cbn [sent].
  rewrite filter_app. cbn. now rewrite H.
Qed.

(** One call of [getRates] dispatches at most two rating requests. *)
Lemma getRates_dispatches_at_most_twice (w : World) :
  (List.length
     (rating_dispatches (snd (UPS.getRates Date_getTime Date_drift a request0 w)))
   <= List.length (rating_dispatches w) + 2)%nat.
Proof.
  pose proof (getAccessToken_rating_dispatches
                (UPS.oauthClient (UPS.config a)) w) as H0.
  destruct (getAccessToken (UPS.oauthClient (UPS.config a)) w)
    as [[[tok|e]|p] w1] eqn:Htok; cbn [snd] in H0.
  2,3: unfold UPS.getRates, bind; rewrite Htok; cbn [snd];
       rewrite H0; lia.
  destruct (transport (UPS.httpClient a) (sent w1)
              (UPS.rateRequest a request0 tok)) as [elapsed out] eqn:Hout.
  pose proof (after_rating_request w1 (UPS.rateRequest a request0 tok)
                elapsed eq_refl) as H1.
  destruct out as [r|e].
  - destruct (Z.eq_dec (status r) 401) as [H401|H401].
    + rewrite (getRates_retry Date_getTime Date_drift a request0 w w1 tok elapsed r
                 Htok Hout H401). cbv zeta.
      match goal with
      | |- context [getAccessToken ?c ?w'] =>
          pose proof (getAccessToken_rating_dispatches c w') as H2;
          destruct (getAccessToken c w') as [[[newToken|e]|p] w3]
      end; cbn [snd] in H2;
        unfold rating_dispatches at 2 in H2; cbn [sent] in H2;
        fold (rating_dispatches (after_request w1
                (UPS.rateRequest a request0 tok) elapsed)) in H2.
      * match goal with
        | |- context [after_request w3 ?req ?el] =>
            pose proof (after_rating_request w3 req el eq_refl) as H3
        end.
        destruct (snd (transport _ _ _)); cbn [snd];
          [|rewrite getRates_catch_world];
          rewrite H3, H2, H1, <- H0, !List.length_app; cbn; lia.
      * rewrite getRates_catch_world, H2, H1, <- H0, List.length_app.
        cbn. lia.
      * cbn [snd]. rewrite H2, H1, <- H0, List.length_app. cbn. lia.
    + pose proof (getRates_first_dispatch Date_getTime Date_drift a request0 w w1 tok
                    elapsed _ Htok Hout) as Hrun.
      cbv zeta in Hrun. rewrite (Hrun H401).
      destruct (status r =? 429); [|destruct (500 <=? status r);
        [|destruct (negb (status r =? 200));
          [|destruct (is_null (response_body r))]]]; cbn [snd];
        rewrite H1, <- H0, List.length_app; cbn; lia.
  - pose proof (getRates_first_dispatch Date_getTime Date_drift a request0 w w1 tok
                  elapsed _ Htok Hout) as Hrun.
    cbv zeta in Hrun. rewrite Hrun, getRates_catch_world, H1, <- H0.
    rewrite List.length_app. cbn. lia.
Qed.

End DispatchCount.

(** ** The adapter: response transformation *)

(** C8.  A status-200 response whose envelope reports success and whose
    [RatedShipment] list is absent or empty makes [getRates] return the
    empty list of quotes. *)
Theorem empty_shipment_list_gives_no_quotes
    (Date_getTime : string -> Js.Number) (Date_drift : nat -> Z * Z)
    (a : UPS.UPSAdapter) (request0 : RateRequest) (w w1 : World)
    (tok : string) (elapsed : Z) (r : HttpResponse)
    (env : RateResponseEnvelope) :
  getAccessToken (UPS.oauthClient (UPS.config a)) w = (Settles (Ok tok), w1) ->
  transport (UPS.httpClient a) (sent w1) (UPS.rateRequest a request0 tok)
  = (elapsed, Responds r) ->
  status r = 200 ->
  RateResponse (as_rate (response_body r)) = Some env ->
  UPS.responseStatusCode env = Some "1" ->
  RatedShipment env = None \/ RatedShipment env = Some [] ->
  fst (UPS.getRates Date_getTime Date_drift a request0 w) = Settles (Ok [])
  /\ forall clock,
       UPS.transformResponse Date_getTime clock (as_rate (response_body r))
       = Ok [].
Proof.
  intros Htok Hout Hs Henv Hcode Hlist.
  assert (Htr : forall clock,
             UPS.transformResponse Date_getTime clock
               (as_rate (response_body r)) = Ok []).
  { intros now. unfold UPS.transformResponse. rewrite Henv, Hcode. cbn.
    destruct Hlist as [-> | ->]; reflexivity. }
  split; [|exact Htr].
  pose proof (getRates_first_dispatch Date_getTime Date_drift a request0 w w1
                tok elapsed _ Htok Hout) as Hrun.
  cbv zeta in Hrun. rewrite Hrun by lia. rewrite Hs. cbn.
  assert (Hnull : is_null (response_body r) = false).
  { destruct (response_body r); try reflexivity. discriminate Henv. }
  now rewrite Hnull, Htr.
Qed.

Lemma empty_shipment_list_gives_no_quotes_witness :
  let script :=
    [ (25, Fixtures.respond 200 (Fixtures.tokenBody "test-token" 3600));
      (40, Fixtures.respond 200
             (RateJson (Fixtures.successEnvelope (Some [])))) ] in
  fst (UPS.getRates (fun _ => Js.NaN) (fun _ => (0, 0))
         (Fixtures.adapter script)
         Fixtures.validRateRequest (Fixtures.start 1000))
  = Settles (Ok []).
Proof.
  intros script.
  refine (proj1 (empty_shipment_list_gives_no_quotes (fun _ => Js.NaN)
                   (fun _ => (0, 0))
                   (Fixtures.adapter script) Fixtures.validRateRequest
                   (Fixtures.start 1000) _ "test-token" 40 _ _
                   eq_refl eq_refl eq_refl eq_refl eq_refl
                   (or_intror eq_refl))).
Defined.

Lemma ceil_div_is_ceiling (x : Z) :
  exists k, Js.ceil_div (Js.Int x) UPS.msPerDay = Js.Int k
            /\ (k - 1) * UPS.msPerDay < x <= k * UPS.msPerDay.
Proof.
  exists (- ((- x) / UPS.msPerDay)). split; [reflexivity|].
  assert (Hpos : 0 < UPS.msPerDay) by reflexivity.
  pose proof (Z.mul_div_le (- x) _ Hpos) as H1.
  pose proof (Z.mul_succ_div_gt (- x) _ Hpos) as H2.
  nia.
Qed.

(** C6 (as amended).  For a rated shipment that carries a guaranteed
    delivery date, [estimatedDays] is the ceiling of (delivery date - now)
    counted in days of 86 400 000 ms; it is left out when that number is
    negative, and it is reported, as 0, when that number is zero. *)
Theorem estimated_days_rule (Date_getTime : string -> Js.Number) (now : Z)
    (shipment : RatedShipmentEntry) (g : GuaranteedDeliveryInfo)
    (d : string) :
  GuaranteedDelivery shipment = Some g ->
  Date g = Some d ->
  d <> EmptyString ->
  let days :=
    Js.ceil_div (Js.sub (Date_getTime d) (Js.Int now)) UPS.msPerDay in
  (forall idNow q,
     UPS.transformShipment Date_getTime now idNow shipment = Ok q ->
     estimatedDays q = if Js.lt_const days 0 then None else Some days)
  /\ (forall t, Date_getTime d = Js.Int t ->
        exists k,
          days = Js.Int k
          /\ (k - 1) * 86400000 < t - now <= k * 86400000
          /\ (0 <= k ->
              UPS.estimateDays Date_getTime now shipment = Some (Js.Int k))
          /\ (k < 0 -> UPS.estimateDays Date_getTime now shipment = None)).
Proof.
  intros Hg Hd Hne days.
  assert (Hest : UPS.estimateDays Date_getTime now shipment
                 = if Js.lt_const days 0 then None else Some days).
  { unfold UPS.estimateDays. rewrite Hg, Hd.
    destruct d; [congruence|]. reflexivity. }
  split.
  - intros idNow q Hq. rewrite <- Hest. unfold UPS.transformShipment in Hq.
    destruct (UPS.selectCharges shipment) as [ch|]; [|discriminate].
    destruct (MonetaryValue ch) as [v|]; [|discriminate].
    destruct (negb _); [discriminate|].
    destruct (Js.parseFloat v); [|discriminate].
    injection Hq as <-. reflexivity.
  - intros t Ht. unfold days in *. rewrite Ht in *. cbn [Js.sub] in *.
    destruct (ceil_div_is_ceiling (t - now)) as (k & Hk & Hbounds).
    exists k. rewrite Hk in *. cbn [Js.lt_const] in Hest.
    change UPS.msPerDay with 86400000 in Hbounds.
    repeat split; try lia.
    + intros H. rewrite Hest.
      destruct (Z.ltb_spec k 0); [lia|reflexivity].
    + intros H. rewrite Hest.
      destruct (Z.ltb_spec k 0); [reflexivity|lia].
Qed.

Lemma estimated_days_rule_witness :
  let getTime := Fixtures.oneDate "2026-02-12" Fixtures.feb12 in
  let now := Fixtures.feb12 - 3 * 86400000 + 1 in
  let shipment := Fixtures.shipment "03" "Ground" "25.50" (Some "2026-02-12") in
  exists q, UPS.transformShipment getTime now (now + 1) shipment = Ok q
            /\ estimatedDays q = Some (Js.Int 3).
Proof.
  intros getTime now shipment. eexists. split; [reflexivity|].
  apply (proj1 (estimated_days_rule getTime now shipment _ "2026-02-12"
                  eq_refl eq_refl ltac:(discriminate)) (now + 1)).
  reflexivity.
Defined.

(** C6 as stated fails at zero: a delivery instant equal to now gives a
    ceiling of 0, and the quote reports [estimatedDays = 0]. *)
Lemma zero_estimate_counterexample :
  ~ (forall (Date_getTime : string -> Js.Number) (now idNow : Z)
            (shipment : RatedShipmentEntry) (g : GuaranteedDeliveryInfo)
            (d : string) (k : Z),
        GuaranteedDelivery shipment = Some g ->
        Date g = Some d ->
        d <> EmptyString ->
        Js.ceil_div (Js.sub (Date_getTime d) (Js.Int now)) UPS.msPerDay
        = Js.Int k ->
        k <= 0 ->
        forall q,
          UPS.transformShipment Date_getTime now idNow shipment = Ok q ->
          estimatedDays q = None).
Proof.
  intros H.
  specialize (H (Fixtures.oneDate "2026-02-12" Fixtures.feb12) Fixtures.feb12
                Fixtures.feb12
                (Fixtures.shipment "03" "Ground" "25.50" (Some "2026-02-12"))
                _ "2026-02-12" 0 eq_refl eq_refl ltac:(discriminate) eq_refl
                ltac:(lia) _ eq_refl).
  discriminate H.
Qed.

(** Whether the callback throws, and what, does not depend on the clock. *)
Lemma transformShipment_throws_always (Date_getTime : string -> Js.Number)
    (dateNow idNow dateNow' idNow' : Z) (s : RatedShipmentEntry)
    (e : JsError) :
  UPS.transformShipment Date_getTime dateNow idNow s = Throw e ->
  UPS.transformShipment Date_getTime dateNow' idNow' s = Throw e.
Proof.
  unfold UPS.transformShipment.
  destruct (UPS.selectCharges s) as [ch|]; [|auto].
  destruct (MonetaryValue ch) as [v|]; [|auto].
  destruct (negb _); [auto|].
  destruct (Js.parseFloat v); [discriminate|auto].
Qed.





(** ** The facade *)

Lemma carrierPromise_returned (request : RateRequest) (c : Carrier.Carrier) :
  Carrier.returns_promise request c = true ->
  CarrierIntegrationService.carrierPromise request c
  = Ok (Carrier.getName c, CarrierIntegrationService.quotes_of request c).
Proof.
  unfold Carrier.returns_promise, CarrierIntegrationService.carrierPromise,
    CarrierIntegrationService.quotes_of, Carrier.getRates.
  destruct (Carrier.call c request) as [[quotes|e]|e];
    [reflexivity|reflexivity|discriminate].
Qed.

Lemma flatMap_results (request : RateRequest) (l : list Carrier.Carrier)
    (i : nat) :
  forallb (Carrier.returns_promise request) l = true ->
  exists results,
    map_throwing (fun _ => CarrierIntegrationService.carrierPromise request)
      i l = Ok results
    /\ flat_map (fun result : string * list RateQuote => snd result) results
       = List.concat (map (CarrierIntegrationService.quotes_of request) l).
Proof.
  revert i. induction l as [|c l IH]; intros i H.
  - exists []. auto.
  - cbn in H. apply andb_prop in H. destruct H as [Hc Hl].
    destruct (IH (S i) Hl) as (results & Hmap & Hflat).
    exists ((Carrier.getName c,
             CarrierIntegrationService.quotes_of request c) :: results).
    cbn [map_throwing]. rewrite (carrierPromise_returned _ _ Hc), Hmap.
    split; [reflexivity|]. cbn. now rewrite Hflat.
Qed.

Lemma concat_succeeding (request : RateRequest) (l : list Carrier.Carrier) :
  List.concat (map (CarrierIntegrationService.quotes_of request) l)
  = List.concat (map (CarrierIntegrationService.quotes_of request)
                   (filter (CarrierIntegrationService.succeeds request) l)).
Proof.
  induction l as [|c l IH]; [reflexivity|].
  cbn [map filter List.concat]. rewrite IH.
  destruct (CarrierIntegrationService.succeeds request c) eqn:Hc; [reflexivity|].
  unfold CarrierIntegrationService.succeeds in Hc. unfold CarrierIntegrationService.quotes_of at 1.
  destruct (Carrier.getRates c request); [discriminate|reflexivity].
Qed.

(** Where every configured carrier answers the call with a promise, as an
    [async] implementation does, the facade returns for a valid request, in
    the order of the carriers, the quotes of the carriers that succeed: a
    carrier whose promise is rejected contributes the empty list, and no
    rejection reaches the caller. *)
Lemma facade_isolates_rejections (zodError : RateRequest -> JsError)
    (cfg : CarrierIntegrationService.CarrierServiceConfig)
    (request : RateRequest) :
  RateRequestSchema request = true ->
  forallb (Carrier.returns_promise request)
    (CarrierIntegrationService.carriers cfg) = true ->
  CarrierIntegrationService.getRates zodError cfg request
  = Ok (List.concat (map (CarrierIntegrationService.quotes_of request)
                       (CarrierIntegrationService.carriers cfg)))
  /\ CarrierIntegrationService.getRates zodError cfg request
     = Ok (List.concat (map (CarrierIntegrationService.quotes_of request)
                     (filter (CarrierIntegrationService.succeeds request)
                        (CarrierIntegrationService.carriers cfg))))
  /\ (forall c, In c (CarrierIntegrationService.carriers cfg) ->
        CarrierIntegrationService.succeeds request c = false ->
        CarrierIntegrationService.quotes_of request c = []).
Proof.
  intros Hvalid Hasync. unfold CarrierIntegrationService.getRates.
  rewrite Hvalid. cbn [negb].
  destruct (flatMap_results request _ 0%nat Hasync)
    as (results & -> & Hflat).
  rewrite Hflat. repeat split.
  - now rewrite concat_succeeding.
  - intros c _. unfold CarrierIntegrationService.succeeds, CarrierIntegrationService.quotes_of.
    destruct (Carrier.getRates c request); [discriminate|reflexivity].
Qed.

(** The facade rejects with the first throw of a call: the handlers that
    isolate a carrier are attached to the promise its call returns, and a
    call that throws returns none. *)
Lemma facade_rejects_on_throw (zodError : RateRequest -> JsError)
    (before after : list Carrier.Carrier) (c : Carrier.Carrier)
    (request : RateRequest) (e : JsError) :
  RateRequestSchema request = true ->
  forallb (Carrier.returns_promise request) before = true ->
  Carrier.call c request = Carrier.Throws e ->
  CarrierIntegrationService.getRates zodError
    {| CarrierIntegrationService.carriers := (before ++ c :: after)%list |}
    request
  = Throw e.
Proof.
  intros Hvalid Hbefore Hc. unfold CarrierIntegrationService.getRates.
  rewrite Hvalid. cbn [negb CarrierIntegrationService.carriers].
  generalize 0%nat. induction before as [|b before IH]; intros i.
  - cbn. unfold CarrierIntegrationService.carrierPromise. now rewrite Hc.
  - cbn in Hbefore. apply andb_prop in Hbefore. destruct Hbefore as [Hb Hrest].
    cbn [app map_throwing]. rewrite (carrierPromise_returned _ _ Hb).
    specialize (IH Hrest (S i)).
    destruct (map_throwing _ (S i) (before ++ c :: after));
      [discriminate IH|]. exact IH.
Qed.

(** C9, at the input where the code departs from it.  The facade is
    configured with a carrier whose [getRates] throws when it is called and
    a carrier that succeeds; the request is valid.  The throw reaches the
    caller: the facade rejects with that error and the quotes of the
    succeeding carrier are lost, in either order of the two carriers.
    Beside a carrier whose promise is rejected, the same succeeding carrier
    does deliver its quotes. *)
Theorem synchronous_throw_escapes_the_facade :
  let facade carriers :=
    CarrierIntegrationService.getRates Fixtures.zodError
      {| CarrierIntegrationService.carriers := carriers |}
      Fixtures.validRateRequest in
  RateRequestSchema Fixtures.validRateRequest = true
  /\ CarrierIntegrationService.succeeds Fixtures.validRateRequest
       Fixtures.succeedingCarrier = true
  /\ CarrierIntegrationService.succeeds Fixtures.validRateRequest
       Fixtures.throwingCarrier = false
  /\ facade [Fixtures.throwingCarrier; Fixtures.succeedingCarrier]
     = Throw (PlainError "Error" "DHL is not set up")
  /\ facade [Fixtures.succeedingCarrier; Fixtures.throwingCarrier]
     = Throw (PlainError "Error" "DHL is not set up")
  /\ facade [Fixtures.failingCarrier; Fixtures.succeedingCarrier]
     = Ok [Fixtures.groundQuote]
  /\ CarrierIntegrationService.new
       {| CarrierIntegrationService.carriers :=
            [Fixtures.throwingCarrier; Fixtures.succeedingCarrier] |}
     = Ok {| CarrierIntegrationService.carriers :=
               [Fixtures.throwingCarrier; Fixtures.succeedingCarrier] |}.
Proof.
  cbv zeta. repeat split.
Qed.

(* ===================================================================== *)
(** * Further properties of the code *)
(* ===================================================================== *)

(** ** The single-carrier entry point *)

Lemma find_first {A} (f : A -> bool) (before after : list A) (x : A) :
  (forall y, In y before -> f y = false) -> f x = true ->
  find f (before ++ x :: after) = Some x.
Proof.
  intros Hb Hx. induction before as [|y before IH]; cbn.
  - now rewrite Hx.
  - rewrite (Hb y (or_introl eq_refl)). apply IH.
    intros z Hz. apply Hb. now right.
Qed.

Lemma find_absent {A} (f : A -> bool) (l : list A) :
  (forall y, In y l -> f y = false) -> find f l = None.
Proof.
  intros H. induction l as [|y l IH]; cbn; [reflexivity|].
  rewrite (H y (or_introl eq_refl)). apply IH.
  intros z Hz. apply H. now right.
Qed.

(** X1.  For a valid request, [getRatesFromCarrier] settles exactly as the
    first configured carrier whose upper-cased name equals the upper-cased
    name asked for: its quotes when it succeeds and, unlike the all-carriers
    path, its own error when it fails.  When no configured name matches, the
    call fails with CARRIER_UNAVAILABLE, the message quoting the name as it
    was given. *)
Theorem single_carrier_lookup (toUpperCase : string -> string)
    (zodError : RateRequest -> JsError)
    (cfg : CarrierIntegrationService.CarrierServiceConfig)
    (carrierName : string) (request : RateRequest) :
  RateRequestSchema request = true ->
  (forall before c after,
     CarrierIntegrationService.carriers cfg = (before ++ c :: after)%list ->
     toUpperCase (Carrier.getName c) = toUpperCase carrierName ->
     (forall x, In x before ->
        toUpperCase (Carrier.getName x) <> toUpperCase carrierName) ->
     SingleCarrier.getRatesFromCarrier toUpperCase zodError cfg carrierName
       request
     = Carrier.getRates c request)
  /\ ((forall x, In x (CarrierIntegrationService.carriers cfg) ->
         toUpperCase (Carrier.getName x) <> toUpperCase carrierName) ->
      SingleCarrier.getRatesFromCarrier toUpperCase zodError cfg carrierName
        request
      = Throw (CarrierIntegrationError CARRIER_UNAVAILABLE
                 ("Carrier '" ++ carrierName ++ "' is not configured") None)).
Proof.
  intros Hvalid.
  unfold SingleCarrier.getRatesFromCarrier, SingleCarrier.findCarrier.
  rewrite Hvalid. cbn [negb]. split.
  - intros before c after Hcfg Hc Hbefore. rewrite Hcfg.
    rewrite find_first; [reflexivity| |].
    + intros y Hy. apply String.eqb_neq. now apply Hbefore.
    + now apply String.eqb_eq.
  - intros Hnone. rewrite find_absent; [reflexivity|].
    intros y Hy. apply String.eqb_neq. now apply Hnone.
Qed.

Lemma single_carrier_lookup_witness :
  SingleCarrier.getRatesFromCarrier Samples.upper Fixtures.zodError
    Samples.twoCarriers "fedex" Fixtures.validRateRequest
  = Throw (CarrierIntegrationError CARRIER_UNAVAILABLE
             "UPS API returned server error: 500" None)
  /\ SingleCarrier.getRatesFromCarrier Samples.upper Fixtures.zodError
       Samples.twoCarriers "dhl" Fixtures.validRateRequest
     = Throw (CarrierIntegrationError CARRIER_UNAVAILABLE
                "Carrier 'dhl' is not configured" None).
Proof.
  destruct (single_carrier_lookup Samples.upper Fixtures.zodError
              Samples.twoCarriers "fedex" Fixtures.validRateRequest eq_refl)
    as [Hfound _].
  destruct (single_carrier_lookup Samples.upper Fixtures.zodError
              Samples.twoCarriers "dhl" Fixtures.validRateRequest eq_refl)
    as [_ Hnone].
  split.
  - apply (Hfound [] Fixtures.failingCarrier [Fixtures.succeedingCarrier]);
      [reflexivity | reflexivity | intros x []].
  - apply Hnone. intros x [<- | [<- | []]]; discriminate.
Defined.

(** X2.  Validation comes first on both entry points: for a request that
    the schema rejects, [getRates] and [getRatesFromCarrier] fail with one
    and the same INVALID_REQUEST error, whose cause is the validation error,
    whatever carriers are configured and whatever name is asked for. *)
Theorem invalid_request_is_rejected_first (toUpperCase : string -> string)
    (zodError : RateRequest -> JsError)
    (cfg : CarrierIntegrationService.CarrierServiceConfig)
    (carrierName : string) (request : RateRequest) :
  RateRequestSchema request = false ->
  CarrierIntegrationService.getRates zodError cfg request
  = Throw (CarrierIntegrationService.invalid_request zodError request)
  /\ SingleCarrier.getRatesFromCarrier toUpperCase zodError cfg carrierName
       request
     = Throw (CarrierIntegrationService.invalid_request zodError request)
  /\ error_code (CarrierIntegrationService.invalid_request zodError request)
     = Some INVALID_REQUEST
  /\ error_cause (CarrierIntegrationService.invalid_request zodError request)
     = Some (zodError request).
Proof.
  intros H. unfold CarrierIntegrationService.getRates,
    SingleCarrier.getRatesFromCarrier. rewrite H. repeat split.
Qed.

Lemma invalid_request_is_rejected_first_witness :
  CarrierIntegrationService.getRates Fixtures.zodError Samples.twoCarriers
    Samples.invalidRateRequest
  = Throw (CarrierIntegrationError INVALID_REQUEST
             "Invalid rate request: Required"
             (Some (PlainError "ZodError" "Required"))).
Proof.
  exact (proj1 (invalid_request_is_rejected_first Samples.upper
                  Fixtures.zodError Samples.twoCarriers "UPS"
                  Samples.invalidRateRequest eq_refl)).
Defined.

(** The carrier name is matched without regard to case: two names with
    the same upper-cased form select the same carrier, and whenever a
    carrier is selected the two calls settle identically. *)
Theorem carrier_name_case_insensitive (toUpperCase : string -> string)
    (zodError : RateRequest -> JsError)
    (cfg : CarrierIntegrationService.CarrierServiceConfig)
    (name1 name2 : string) (request : RateRequest) :
  toUpperCase name1 = toUpperCase name2 ->
  SingleCarrier.findCarrier toUpperCase cfg name1
  = SingleCarrier.findCarrier toUpperCase cfg name2
  /\ (SingleCarrier.findCarrier toUpperCase cfg name1 <> None ->
      SingleCarrier.getRatesFromCarrier toUpperCase zodError cfg name1 request
      = SingleCarrier.getRatesFromCarrier toUpperCase zodError cfg name2
          request).
Proof.
  intros H.
  assert (Hfind : SingleCarrier.findCarrier toUpperCase cfg name1
                  = SingleCarrier.findCarrier toUpperCase cfg name2).
  { unfold SingleCarrier.findCarrier. now rewrite H. }
  split; [exact Hfind|].
  intros Hsome. unfold SingleCarrier.getRatesFromCarrier. rewrite <- Hfind.
  destruct (SingleCarrier.findCarrier toUpperCase cfg name1);
    [reflexivity|congruence].
Qed.

Lemma carrier_name_case_insensitive_witness :
  SingleCarrier.getRatesFromCarrier Samples.upper Fixtures.zodError
    Samples.twoCarriers "ups" Fixtures.validRateRequest
  = SingleCarrier.getRatesFromCarrier Samples.upper Fixtures.zodError
      Samples.twoCarriers "UPS" Fixtures.validRateRequest.
Proof.
  apply (carrier_name_case_insensitive Samples.upper Fixtures.zodError
           Samples.twoCarriers "ups" "UPS" Fixtures.validRateRequest eq_refl).
  discriminate.
Defined.

(** ** The REST front end *)

(** X3.  The error middleware answers a [CarrierIntegrationError] with the
    status of its code, which is one of 400, 401, 429, 502 and 503, and
    with the error's own code and message; it answers anything else with
    500 and the code INTERNAL_ERROR.  So the status is 500 exactly for
    errors that are not classified, and it is never a success status. *)
Theorem error_handler_statuses (err : JsError) :
  (forall code message cause,
     err = CarrierIntegrationError code message cause ->
     Server.errorHandler_reply err
     = (Server.getHttpStatusForError code, Server.code_string code, message)
     /\ In (Server.getHttpStatusForError code) [400; 401; 429; 502; 503])
  /\ (is_carrier_error err = false ->
      Server.reply_status (Server.errorHandler err) = 500
      /\ exists message,
           Server.reply_body (Server.errorHandler err)
           = Server.Failure "INTERNAL_ERROR" message None)
  /\ (Server.reply_status (Server.errorHandler err) = 500
      <-> is_carrier_error err = false)
  /\ 400 <= Server.reply_status (Server.errorHandler err).
Proof.
  repeat split.
  - subst err. reflexivity.
  - subst err. destruct code; cbn; auto 10.
  - destruct err; cbn in *; try reflexivity; discriminate.
  - destruct err; cbn in *; try discriminate; eauto.
  - destruct err as [| code ? ? |]; cbn; try reflexivity.
    destruct code; cbn; discriminate.
  - intros H. destruct err; cbn in *; try reflexivity; discriminate.
  - destruct err as [| code ? ? |]; cbn; try lia. destruct code; cbn; lia.
Qed.

(** X4.  With an initialised service whose carriers all answer a call with
    a promise (as the [async] [UPSAdapter] does), [POST /api/rates] answers
    a body that [express.json()] has parsed into a rate request with 200
    or 400 and nothing else: 200 with the quotes of the succeeding carriers
    and their number for a valid request, even when every carrier fails,
    and 400 with the code INVALID_REQUEST for a request the schema rejects;
    a carrier's rejection never decides the status.  A body that
    [express.json()] cannot parse does not reach the route: the error
    middleware answers the parser's error, with 500 and INTERNAL_ERROR as
    that error is not a [CarrierIntegrationError]. *)
Theorem post_rates_statuses (zodError : RateRequest -> JsError)
    (svc : CarrierIntegrationService.CarrierServiceConfig)
    (incoming : Server.Incoming) :
  let reply := Server.receiveRates zodError (Some svc) incoming in
  (forall rateRequest,
     incoming = Server.Parsed rateRequest ->
     let quotes :=
       List.concat (map (CarrierIntegrationService.quotes_of rateRequest)
                      (CarrierIntegrationService.carriers svc)) in
     let asynchronous :=
       forallb (Carrier.returns_promise rateRequest)
         (CarrierIntegrationService.carriers svc) in
     (RateRequestSchema rateRequest = true -> asynchronous = true ->
      reply = Server.ok (Server.Success None quotes (List.length quotes)))
     /\ (RateRequestSchema rateRequest = false ->
         Server.reply_status reply = 400
         /\ exists message,
              Server.reply_body reply
              = Server.Failure "INVALID_REQUEST" message
                  (error_message (zodError rateRequest)))
     /\ (asynchronous = true ->
         Server.reply_status reply = 200 \/ Server.reply_status reply = 400))
  /\ (forall err,
        incoming = Server.Unparsed err ->
        reply = Server.errorHandler err
        /\ (is_carrier_error err = false ->
            Server.reply_status reply = 500
            /\ Server.reply_body reply
               = Server.Failure "INTERNAL_ERROR"
                   (Js.or_default (error_message err) "Internal server error")
                   None)).
Proof.
  intros reply. split.
  - intros rateRequest Hin quotes asynchronous. subst incoming.
    unfold reply, Server.receiveRates, Server.postRates.
    destruct (RateRequestSchema rateRequest) eqn:Hvalid.
    + assert (Hok : asynchronous = true ->
                    CarrierIntegrationService.getRates zodError svc rateRequest
                    = Ok quotes).
      { intros Hasync.
        exact (proj1 (facade_isolates_rejections zodError svc rateRequest
                        Hvalid Hasync)). }
      split; [|split].
      * intros _ Hasync. now rewrite (Hok Hasync).
      * discriminate.
      * intros Hasync. rewrite (Hok Hasync). now left.
    + unfold CarrierIntegrationService.getRates. rewrite Hvalid. cbn [negb].
      split; [|split].
      * discriminate.
      * intros _. split; [reflexivity|]. cbn. eauto.
      * intros _. now right.
  - intros err Hin. subst incoming. unfold reply. split; [reflexivity|].
    intros Herr. destruct err; cbn in *; try discriminate; split; reflexivity.
Qed.

(** X5.  With an initialised service and a valid request,
    [POST /api/rates/:carrier] answers as the selected carrier settles: 200
    with its quotes, their number and the upper-cased name; and on failure
    the error middleware's reply to the carrier's own error, so that a
    classified error shows with the status of its code.  A name that
    selects no carrier is answered with 503 and CARRIER_UNAVAILABLE. *)
Theorem post_carrier_rates_statuses (toUpperCase : string -> string)
    (zodError : RateRequest -> JsError)
    (svc : CarrierIntegrationService.CarrierServiceConfig)
    (carrierName : string) (rateRequest : RateRequest) :
  RateRequestSchema rateRequest = true ->
  let reply :=
    Server.postCarrierRates toUpperCase zodError (Some svc) carrierName
      rateRequest in
  (forall c quotes,
     SingleCarrier.findCarrier toUpperCase svc carrierName = Some c ->
     Carrier.getRates c rateRequest = Ok quotes ->
     reply = Server.ok (Server.Success (Some (toUpperCase carrierName))
                          quotes (List.length quotes)))
  /\ (forall c e,
        SingleCarrier.findCarrier toUpperCase svc carrierName = Some c ->
        Carrier.getRates c rateRequest = Throw e ->
        reply = Server.errorHandler e
        /\ (forall code, error_code e = Some code ->
              Server.reply_status reply = Server.getHttpStatusForError code))
  /\ (SingleCarrier.findCarrier toUpperCase svc carrierName = None ->
      Server.reply_status reply = 503
      /\ Server.reply_body reply
         = Server.Failure "CARRIER_UNAVAILABLE"
             ("Carrier '" ++ carrierName ++ "' is not configured") None).
Proof.
  intros Hvalid reply. unfold reply, Server.postCarrierRates,
    SingleCarrier.getRatesFromCarrier. rewrite Hvalid. cbn [negb].
  split; [|split].
  - intros c quotes -> ->. reflexivity.
  - intros c e -> ->. split; [reflexivity|].
    intros code Hcode. destruct e; cbn in *; try discriminate.
    now injection Hcode as ->.
  - intros ->. split; reflexivity.
Qed.

Lemma post_carrier_rates_statuses_witness :
  Server.reply_status
    (Server.postCarrierRates Samples.upper Fixtures.zodError
       (Some Samples.twoCarriers) "fedex" Fixtures.validRateRequest)
  = 503
  /\ Server.reply_status
       (Server.postRates Fixtures.zodError (Some Samples.twoCarriers)
          Fixtures.validRateRequest)
     = 200.
Proof.
  split.
  - destruct (post_carrier_rates_statuses Samples.upper Fixtures.zodError
                Samples.twoCarriers "fedex" Fixtures.validRateRequest eq_refl)
      as (_ & Hfail & _).
    destruct (Hfail Fixtures.failingCarrier _ eq_refl eq_refl) as [_ Hcode].
    exact (Hcode CARRIER_UNAVAILABLE eq_refl).
  - reflexivity.
Defined.

Lemma post_rates_statuses_witness :
  let received := Server.receiveRates Fixtures.zodError
                    (Some Samples.twoCarriers) in
  received (Server.Parsed Fixtures.validRateRequest)
  = Server.ok (Server.Success None [Fixtures.groundQuote] 1)
  /\ Server.reply_status (received (Server.Parsed Samples.invalidRateRequest))
     = 400
  /\ received (Server.Unparsed
                 (PlainError "SyntaxError" "Unexpected end of JSON input"))
     = {| Server.reply_status := 500;
          Server.reply_body :=
            Server.Failure "INTERNAL_ERROR" "Unexpected end of JSON input"
              None |}.
Proof.
  intros received.
  pose (at_ incoming :=
          post_rates_statuses Fixtures.zodError Samples.twoCarriers incoming).
  split; [|split].
  - exact (proj1 (proj1 (at_ (Server.Parsed Fixtures.validRateRequest))
                    _ eq_refl) eq_refl eq_refl).
  - exact (proj1 (proj1 (proj2 (proj1
             (at_ (Server.Parsed Samples.invalidRateRequest)) _ eq_refl))
             eq_refl)).
  - exact (proj1 (proj2
             (at_ (Server.Unparsed
                     (PlainError "SyntaxError"
                        "Unexpected end of JSON input"))) _ eq_refl)).
Defined.

Lemma error_handler_statuses_witness :
  Server.errorHandler_reply
    (CarrierIntegrationError RATE_LIMITED "UPS API rate limit exceeded" None)
  = (429, "RATE_LIMITED", "UPS API rate limit exceeded")
  /\ Server.reply_status (Server.errorHandler Server.not_initialized) = 500.
Proof.
  destruct (error_handler_statuses
              (CarrierIntegrationError RATE_LIMITED
                 "UPS API rate limit exceeded" None)) as (Hc & _).
  destruct (error_handler_statuses Server.not_initialized) as (_ & Hp & _).
  split; [exact (proj1 (Hc _ _ _ eq_refl)) | exact (proj1 (Hp eq_refl))].
Defined.

(** ** Configuration *)

Lemma or_default_empty (o : option string) :
  Config.is_empty (Js.or_default o EmptyString) = negb (Js.truthy_string o).
Proof. destruct o as [[|c s]|]; reflexivity. Qed.

Lemma or_default_truthy (o : option string) (d s : string) :
  Js.or_default o d = s -> Js.truthy_string o = true -> o = Some s.
Proof. destruct o as [[|c r]|]; cbn; intros; congruence. Qed.

Lemma or_literal_nonempty (s d : string) :
  d <> EmptyString -> Config.or_literal s d <> EmptyString.
Proof. destruct s; cbn; congruence. Qed.

(** X6.  An adapter that [createUPSAdapter] returns never carries an empty
    client id or client secret, and it talks to the token endpoint and to
    the rating endpoint through the same HTTP client.  When credentials are
    required, the call throws unless both are supplied non-empty, and the
    adapter then carries exactly the supplied ones (the [oauth] override
    when there is one, else the environment's), never the test defaults;
    when they are not required the call never throws. *)
Theorem created_adapter_credentials (env : Config.Env) (http : HttpClient)
    (config : option Config.Override) :
  (forall require a,
     Config.createUPSAdapter env http config require = Ok a ->
     let oc := OAuth.config (UPS.oauthClient (UPS.config a)) in
     OAuth.clientId oc <> EmptyString
     /\ OAuth.clientSecret oc <> EmptyString
     /\ OAuth.httpClient (UPS.oauthClient (UPS.config a)) = http
     /\ UPS.httpClient a = http)
  /\ (forall a,
        Config.createUPSAdapter env http config true = Ok a ->
        match Config.field config Config.oauth with
        | Some o => OAuth.config (UPS.oauthClient (UPS.config a)) = o
        | None =>
            Config.UPS_CLIENT_ID env
            = Some (OAuth.clientId
                      (OAuth.config (UPS.oauthClient (UPS.config a))))
            /\ Config.UPS_CLIENT_SECRET env
               = Some (OAuth.clientSecret
                         (OAuth.config (UPS.oauthClient (UPS.config a))))
        end)
  /\ (Config.field config Config.oauth = None ->
      Js.truthy_string (Config.UPS_CLIENT_ID env) = false
      \/ Js.truthy_string (Config.UPS_CLIENT_SECRET env) = false ->
      Config.createUPSAdapter env http config true
      = Throw Config.missing_credentials)
  /\ exists a, Config.createUPSAdapter env http config false = Ok a.
Proof.
  split; [|split; [|split]].
  - intros require a H. unfold Config.createUPSAdapter in H.
    destruct (require && _); [discriminate|].
    injection H as <-. cbn. repeat split;
      apply or_literal_nonempty; discriminate.
  - intros a H. unfold Config.createUPSAdapter in H. cbn [andb] in H.
    destruct (Config.field config Config.oauth) as [o|].
    + destruct o as [url id secret sc]. cbn in H.
      destruct id, secret; cbn in H; try discriminate.
      injection H as <-. reflexivity.
    + cbn [OAuth.clientId OAuth.clientSecret] in H.
      rewrite !or_default_empty in H.
      destruct (Js.truthy_string (Config.UPS_CLIENT_ID env)) eqn:Hid;
        [|discriminate].
      destruct (Js.truthy_string (Config.UPS_CLIENT_SECRET env)) eqn:Hsec;
        [|discriminate].
      cbn in H. injection H as <-. cbn.
      destruct (Config.UPS_CLIENT_ID env) as [[|c1 s1]|]; try discriminate.
      destruct (Config.UPS_CLIENT_SECRET env) as [[|c2 s2]|];
        try discriminate.
      split; reflexivity.
  - intros Hnone Hmiss. unfold Config.createUPSAdapter. rewrite Hnone.
    cbn [andb OAuth.clientId OAuth.clientSecret].
    rewrite !or_default_empty.
    destruct Hmiss as [-> | ->]; cbn; [reflexivity|].
    now rewrite orb_true_r.
  - unfold Config.createUPSAdapter. cbn [andb]. eauto.
Qed.

Lemma created_adapter_credentials_witness :
  (exists a,
     Config.createUPSAdapter Samples.realEnv (Fixtures.scripted []) None true
     = Ok a
     /\ OAuth.clientId (OAuth.config (UPS.oauthClient (UPS.config a)))
        = "client-1")
  /\ Config.createUPSAdapter Samples.noEnv (Fixtures.scripted []) None true
     = Throw Config.missing_credentials.
Proof.
  destruct (created_adapter_credentials Samples.realEnv (Fixtures.scripted [])
              None) as (_ & Hreal & _).
  destruct (created_adapter_credentials Samples.noEnv (Fixtures.scripted [])
              None) as (_ & _ & Hmissing & _).
  split.
  - eexists. split; [reflexivity|].
    destruct (Hreal _ eq_refl) as [Hid _].
    exact (f_equal (fun o => match o with
                             | Some x => x
                             | None => EmptyString
                             end) (eq_sym Hid)).
  - apply Hmissing; [reflexivity | now left].
Defined.

(** X7.  The base URL of a created adapter is the override's when it is
    non-empty, else the environment's when that is non-empty, else the UPS
    test host; and unless a token URL is supplied (by an [oauth] override
    or by the environment) the token URL is that base URL followed by
    [/security/v1/oauth/token]. *)
Theorem created_adapter_urls (env : Config.Env) (http : HttpClient)
    (config : option Config.Override) (require : bool) (a : UPS.UPSAdapter) :
  Config.createUPSAdapter env http config require = Ok a ->
  (forall u, Config.field config Config.baseUrl = Some u -> u <> EmptyString ->
     UPS.baseUrl (UPS.config a) = u)
  /\ (forall u, Js.truthy_string (Config.field config Config.baseUrl) = false ->
        Config.UPS_BASE_URL env = Some u -> u <> EmptyString ->
        UPS.baseUrl (UPS.config a) = u)
  /\ (Js.truthy_string (Config.field config Config.baseUrl) = false ->
      Js.truthy_string (Config.UPS_BASE_URL env) = false ->
      UPS.baseUrl (UPS.config a) = "https://wwwcie.ups.com")
  /\ (Config.field config Config.oauth = None ->
      Js.truthy_string (Config.UPS_OAUTH_TOKEN_URL env) = false ->
      OAuth.tokenUrl (OAuth.config (UPS.oauthClient (UPS.config a)))
      = UPS.baseUrl (UPS.config a) ++ "/security/v1/oauth/token").
Proof.
  intros H. unfold Config.createUPSAdapter in H.
  destruct (require && _); [discriminate|]. injection H as <-.
  cbn [UPS.baseUrl UPS.config UPS.oauthClient OAuth.config OAuth.tokenUrl].
  split; [|split; [|split]].
  - intros u -> Hu. destruct u; [congruence|reflexivity].
  - intros u Hf -> Hu. unfold Js.or_string. rewrite Hf.
    destruct u; [congruence|reflexivity].
  - intros Hf He. unfold Js.or_string. rewrite Hf.
    destruct (Config.UPS_BASE_URL env) as [[|c s]|]; try reflexivity.
    discriminate.
  - intros -> Ht. cbn [OAuth.tokenUrl].
    destruct (Config.UPS_OAUTH_TOKEN_URL env) as [[|c s]|]; try reflexivity.
    discriminate.
Qed.

Lemma created_adapter_urls_witness :
  exists a,
    Config.createUPSAdapter Samples.realEnv (Fixtures.scripted []) None true
    = Ok a
    /\ OAuth.tokenUrl (OAuth.config (UPS.oauthClient (UPS.config a)))
       = "https://onlinetools.ups.com/security/v1/oauth/token".
Proof.
  eexists. split; [reflexivity|].
  destruct (created_adapter_urls Samples.realEnv (Fixtures.scripted []) None
              true _ eq_refl) as (_ & Henv & _ & Htoken).
  exact (eq_trans (Htoken eq_refl eq_refl)
           (f_equal (fun b => b ++ "/security/v1/oauth/token")
              (Henv "https://onlinetools.ups.com" eq_refl eq_refl
                 ltac:(discriminate)))).
Defined.

(** ** The Node transport's error mapping *)

(** X8.  When [fetch] is aborted by the timeout, [NodeHttpClient] raises a
    fresh [Error('Request timeout')].  The adapter classifies it as TIMEOUT
    and the token manager as AUTH_FAILED, and in both the cause is that
    fresh error: the abort error itself is not kept.  Any other error passes
    through the client unchanged. *)
Theorem abort_is_reported_as_timeout (error : JsError) :
  (NodeHttpClient.error_name error = Some "AbortError" ->
   forall (w : World) (now : Z),
     @UPS.getRates_catch (list RateQuote)
       (NodeHttpClient.request_catch error) w
     = (Settles (Throw (CarrierIntegrationError TIMEOUT
                          "UPS API request timed out"
                          (Some (PlainError "Error" "Request timeout")))), w)
     /\ OAuth.acquireToken_resume now
          (Raises (NodeHttpClient.request_catch error))
        = Throw (CarrierIntegrationError AUTH_FAILED
                   "Failed to acquire OAuth token"
                   (Some (PlainError "Error" "Request timeout"))))
  /\ (NodeHttpClient.error_name error <> Some "AbortError" ->
      NodeHttpClient.request_catch error = error).
Proof.
  unfold NodeHttpClient.request_catch. split.
  - intros -> w now. cbn. split; reflexivity.
  - intros H. destruct (NodeHttpClient.error_name error) as [name|];
      [|reflexivity].
    destruct (String.eqb_spec name "AbortError"); [congruence|reflexivity].
Qed.

Lemma abort_is_reported_as_timeout_witness :
  OAuth.acquireToken_resume 0
    (Raises (NodeHttpClient.request_catch
               (PlainError "AbortError" "This operation was aborted")))
  = Throw (CarrierIntegrationError AUTH_FAILED
             "Failed to acquire OAuth token"
             (Some (PlainError "Error" "Request timeout"))).
Proof.
  exact (proj2 (proj1 (abort_is_reported_as_timeout
                         (PlainError "AbortError"
                            "This operation was aborted"))
                  eq_refl (Fixtures.start 0) 0)).
Defined.

(** ** The wire request *)

(** X9.  [transformRequest] maps the packages one to one and in order: the
    wire request lists as many packages as the rate request, and the
    package at each position carries the rendering of that package's
    weight, in pounds, and a [Dimensions] block, in inches, exactly when
    that package has dimensions.  The shipper number is sent exactly when
    the configured one is a non-empty string. *)
Theorem transformRequest_packages (Number_toString : Q -> string)
    (shipperNumber : option string) (request : RateRequest) :
  let wire :=
    UPSWire.Shipment
      (UPSWire.RateRequest
         (UPSWire.transformRequest Number_toString shipperNumber request)) in
  List.length (UPSWire.Package wire) = List.length (packages request)
  /\ (forall i pkg,
        nth_error (packages request) i = Some pkg ->
        exists wp,
          nth_error (UPSWire.Package wire) i = Some wp
          /\ UPSWire.PackageWeight wp
             = {| UPSWire.Weight_UnitOfMeasurement :=
                    {| UPSWire.Code := "LBS" |};
                  UPSWire.Weight := Number_toString (weight pkg) |}
          /\ (UPSWire.Dimensions wp = None <-> dimensions pkg = None)
          /\ (forall d, dimensions pkg = Some d ->
                UPSWire.Dimensions wp
                = Some {| UPSWire.Dimensions_UnitOfMeasurement :=
                            {| UPSWire.Code := "IN" |};
                          UPSWire.Length := Number_toString (length d);
                          UPSWire.Width := Number_toString (width d);
                          UPSWire.Height := Number_toString (height d) |}))
  /\ (forall s, shipperNumber = Some s -> s <> EmptyString ->
        UPSWire.ShipperNumber (UPSWire.Shipper wire) = Some s)
  /\ (Js.truthy_string shipperNumber = false ->
      UPSWire.ShipperNumber (UPSWire.Shipper wire) = None).
Proof.
  intros wire. unfold wire. cbn. split; [|split; [|split]].
  - apply List.length_map.
  - intros i pkg Hi. exists (UPSWire.transformPackage Number_toString pkg).
    split; [now apply map_nth_error|].
    split; [reflexivity|]. split.
    + cbn. destruct (dimensions pkg); split; congruence.
    + intros d Hd. cbn. now rewrite Hd.
  - intros s -> Hs. destruct s; [congruence|reflexivity].
  - intros ->. reflexivity.
Qed.

(** X10.  [transformAddress] leaves [AddressLine] out exactly when the
    address has no street line.  For a request that passed validation this
    never happens: both wire addresses carry the street lines as they are,
    the country code has two characters, and the package list is not
    empty. *)
Theorem validated_request_on_the_wire (Number_toString : Q -> string)
    (shipperNumber : option string) (request : RateRequest) :
  (forall address,
     UPSWire.AddressLine (UPSWire.transformAddress address) = None
     <-> street address = [])
  /\ (RateRequestSchema request = true ->
      let wire :=
        UPSWire.Shipment
          (UPSWire.RateRequest
             (UPSWire.transformRequest Number_toString shipperNumber
                request)) in
      UPSWire.AddressLine (UPSWire.Shipper_Address (UPSWire.Shipper wire))
      = Some (street (origin request))
      /\ UPSWire.AddressLine (UPSWire.ShipTo_Address (UPSWire.ShipTo wire))
         = Some (street (destination request))
      /\ Js.string_length
           (UPSWire.CountryCode
              (UPSWire.Shipper_Address (UPSWire.Shipper wire))) = 2%nat
      /\ Js.string_length
           (UPSWire.CountryCode
              (UPSWire.ShipTo_Address (UPSWire.ShipTo wire))) = 2%nat
      /\ UPSWire.Package wire <> []).
Proof.
  split.
  - intros address. unfold UPSWire.transformAddress. cbn.
    destruct (street address); cbn; split; congruence.
  - intros Hvalid wire. unfold RateRequestSchema in Hvalid.
    apply andb_prop in Hvalid. destruct Hvalid as [Hvalid H].
    apply andb_prop in Hvalid. destruct Hvalid as [Hvalid H0].
    apply andb_prop in Hvalid. destruct Hvalid as [Hvalid H1].
    assert (Haddr : forall x, AddressSchema x = true ->
              UPSWire.AddressLine (UPSWire.transformAddress x)
              = Some (street x)
              /\ Js.string_length (country x) = 2%nat).
    { intros x Hx. unfold AddressSchema in Hx.
      repeat (apply andb_prop in Hx; destruct Hx as [Hx ?]).
      split.
      - unfold UPSWire.transformAddress. cbn.
        destruct (street x); [discriminate|reflexivity].
      - now apply Nat.eqb_eq. }
    destruct (Haddr _ Hvalid) as [Ho Hoc].
    destruct (Haddr _ H1) as [Hd Hdc].
    unfold wire. cbn. repeat split; auto.
    destruct (packages request); [discriminate|]. cbn. discriminate.
Qed.

Lemma validated_request_on_the_wire_witness :
  UPSWire.AddressLine
    (UPSWire.Shipper_Address
       (UPSWire.Shipper
          (UPSWire.Shipment
             (UPSWire.RateRequest
                (UPSWire.transformRequest (fun _ => "5") None
                   Fixtures.validRateRequest)))))
  = Some ["123 Main St"].
Proof.
  exact (proj1 (proj2 (validated_request_on_the_wire (fun _ => "5") None
                         Fixtures.validRateRequest) eq_refl)).
Defined.

Lemma transformRequest_packages_witness :
  UPSWire.ShipperNumber
    (UPSWire.Shipper
       (UPSWire.Shipment
          (UPSWire.RateRequest
             (UPSWire.transformRequest (fun _ => "5") (Some "A1B2C3")
                Fixtures.validRateRequest))))
  = Some "A1B2C3".
Proof.
  destruct (transformRequest_packages (fun _ => "5") (Some "A1B2C3")
              Fixtures.validRateRequest) as (_ & _ & Hs & _).
  apply Hs; [reflexivity|discriminate].
Defined.

(** ** The token cache over several calls *)

Lemma invalid_stays_invalid (st : OAuth.State) (t t' : Z) :
  OAuth.has_valid_token t st = false -> t <= t' ->
  OAuth.has_valid_token t' st = false.
Proof.
  unfold OAuth.has_valid_token, OAuth.isTokenValid.
  destruct (OAuth.token st); [|reflexivity].
  intros H Hle. apply Z.ltb_ge in H. apply Z.ltb_ge. lia.
Qed.

Lemma token_acquisition_outcomes_aux (c : OAuth.OAuthClient) (w : World)
    (elapsed : Z) (r : HttpResponse) (tok : string) (secs : Z) :
  OAuth.has_valid_token (clock w) (oauth w) = false ->
  OAuth.tokenRefreshPromise (oauth w) = None ->
  transport (OAuth.httpClient c) (sent w)
    (OAuth.acquireToken_request (OAuth.config c)) = (elapsed, Responds r) ->
  status r = 200 ->
  access_token (as_token (response_body r)) = Some tok ->
  expires_in (as_token (response_body r)) = Some secs ->
  tok <> EmptyString -> secs <> 0 ->
  fst (getAccessToken c w) = Settles (Ok tok)
  /\ clock (snd (getAccessToken c w)) = clock w + Z.max 0 elapsed
     /\ OAuth.token (oauth (snd (getAccessToken c w)))
        = Some {| OAuth.accessToken := tok;
                  OAuth.expiresAt :=
                    clock (snd (getAccessToken c w)) + secs * 1000;
                  OAuth.tokenType :=
                    Js.or_default (token_type (as_token (response_body r)))
                      "Bearer" |}
     /\ OAuth.tokenRefreshPromise (oauth (snd (getAccessToken c w))) = None.
Proof.
  intros Hv Hp Ht Hs Ha He Htok Hsecs.
  rewrite (getAccessToken_acquires c w elapsed _ Hv Hp Ht).
  rewrite (acquireToken_success _ r tok secs Hs Ha He Htok Hsecs).
  cbn. repeat split.
Qed.

(** X11.  After a successful acquisition at time [t] of a token that
    expires in [secs] seconds, a later call finding the manager as that
    call left it returns the same token without any request exactly while
    the clock is before [t + secs * 1000 - 60000].  In particular a token
    whose lifetime is 60 seconds or less is never served from the cache:
    every later call dispatches a token request again. *)
Theorem token_reuse_window (c : OAuth.OAuthClient) (w later : World)
    (elapsed : Z) (r : HttpResponse) (tok : string) (secs : Z) :
  OAuth.has_valid_token (clock w) (oauth w) = false ->
  OAuth.tokenRefreshPromise (oauth w) = None ->
  transport (OAuth.httpClient c) (sent w)
    (OAuth.acquireToken_request (OAuth.config c)) = (elapsed, Responds r) ->
  status r = 200 ->
  access_token (as_token (response_body r)) = Some tok ->
  expires_in (as_token (response_body r)) = Some secs ->
  tok <> EmptyString -> secs <> 0 ->
  let acquired := snd (getAccessToken c w) in
  oauth later = oauth acquired ->
  clock acquired <= clock later ->
  (clock later < clock acquired + secs * 1000 - 60000 ->
   getAccessToken c later = (Settles (Ok tok), later))
  /\ (clock acquired + secs * 1000 - 60000 <= clock later ->
      sent (snd (getAccessToken c later))
      = (sent later ++ [OAuth.acquireToken_request (OAuth.config c)])%list)
  /\ (secs * 1000 <= 60000 ->
      sent (snd (getAccessToken c later))
      = (sent later ++ [OAuth.acquireToken_request (OAuth.config c)])%list).
Proof.
  intros Hv Hp Ht Hs Ha He Htok Hsecs acquired Hsame Hclock.
  destruct (token_acquisition_outcomes_aux c w elapsed r tok secs
              Hv Hp Ht Hs Ha He Htok Hsecs) as [Hrun Hstate].
  fold acquired in Hstate.
  destruct Hstate as (Hc & Htoken & Hmarker).
  assert (Hlater : OAuth.token (oauth later)
                   = Some {| OAuth.accessToken := tok;
                             OAuth.expiresAt := clock acquired + secs * 1000;
                             OAuth.tokenType :=
                               Js.or_default
                                 (token_type (as_token (response_body r)))
                                 "Bearer" |}).
  { now rewrite Hsame. }
  destruct (getAccessToken_cached_cases c later _ Hlater)
    as (Hfast & _ & Hstart).
  cbn [OAuth.expiresAt OAuth.accessToken] in Hfast, Hstart.
  split; [exact Hfast|]. split.
  - intros Hge. apply Hstart; [exact Hge | now rewrite Hsame].
  - intros Hshort. apply Hstart; [lia | now rewrite Hsame].
Qed.

Lemma token_reuse_window_witness :
  let c :=
    Fixtures.oauthClient
      [(25, Fixtures.respond 200 (Fixtures.tokenBody "cached-token" 3600))] in
  let acquired := snd (getAccessToken c (Fixtures.start 1000)) in
  let later :=
    {| clock := 3000000; oauth := oauth acquired; sent := sent acquired |} in
  getAccessToken c later = (Settles (Ok "cached-token"), later).
Proof.
  intros c acquired later.
  refine (proj1 (token_reuse_window c (Fixtures.start 1000) later 25 _
                   "cached-token" 3600 eq_refl eq_refl eq_refl eq_refl
                   eq_refl eq_refl _ _ eq_refl _) _);
    [discriminate | discriminate | cbn; lia | cbn; lia].
Defined.

Lemma getAccessToken_starts (c : OAuth.OAuthClient) (w : World) :
  OAuth.has_valid_token (clock w) (oauth w) = false ->
  OAuth.tokenRefreshPromise (oauth w) = None ->
  sent (snd (getAccessToken c w))
  = (sent w ++ [OAuth.acquireToken_request (OAuth.config c)])%list.
Proof.
  intros Hv Hp. unfold getAccessToken.
  rewrite enter_invalid_idle by assumption.
  destruct (transport _ _ _) as [elapsed out].
  destruct (OAuth.getAccessToken_resume _ _ _). reflexivity.
Qed.

(** X12.  A failed acquisition is not remembered: it leaves the cached
    token as it was and clears the in-flight marker, so the next call at any
    later time, finding the manager as the failed call left it, dispatches
    a token request of its own. *)
Theorem failed_acquisition_is_retried (c : OAuth.OAuthClient) (w later : World)
    (elapsed : Z) (out : TransportOutcome) (e : JsError) :
  OAuth.has_valid_token (clock w) (oauth w) = false ->
  OAuth.tokenRefreshPromise (oauth w) = None ->
  transport (OAuth.httpClient c) (sent w)
    (OAuth.acquireToken_request (OAuth.config c)) = (elapsed, out) ->
  OAuth.acquireToken_resume (clock w + Z.max 0 elapsed) out = Throw e ->
  let failed := snd (getAccessToken c w) in
  oauth later = oauth failed ->
  clock w <= clock later ->
  fst (getAccessToken c w) = Settles (Throw e)
  /\ OAuth.token (oauth failed) = OAuth.token (oauth w)
  /\ OAuth.tokenRefreshPromise (oauth failed) = None
  /\ sent (snd (getAccessToken c later))
     = (sent later ++ [OAuth.acquireToken_request (OAuth.config c)])%list.
Proof.
  intros Hv Hp Ht Hfail failed Hsame Hclock.
  assert (Hrun : getAccessToken c w
                 = (Settles (Throw e),
                    {| clock := clock w + Z.max 0 elapsed;
                       oauth := {| OAuth.token := OAuth.token (oauth w);
                                   OAuth.tokenRefreshPromise := None |};
                       sent := sent w
                               ++ [OAuth.acquireToken_request
                                     (OAuth.config c)] |})).
  { rewrite (getAccessToken_acquires c w elapsed out Hv Hp Ht).
    now rewrite Hfail. }
  unfold failed in *. rewrite Hrun in *. cbn [fst snd oauth] in *.
  split; [reflexivity|]. split; [reflexivity|]. split; [reflexivity|].
  apply getAccessToken_starts.
  - rewrite Hsame. apply (invalid_stays_invalid _ (clock w)); [|exact Hclock].
    exact Hv.
  - now rewrite Hsame.
Qed.

Lemma failed_acquisition_is_retried_witness :
  let c :=
    Fixtures.oauthClient [(25, Fixtures.respond 401 (OtherBody "Unauthorized"))] in
  let failed := snd (getAccessToken c (Fixtures.start 1000)) in
  List.length (sent (snd (getAccessToken c failed))) = 2%nat.
Proof.
  intros c failed.
  destruct (failed_acquisition_is_retried c (Fixtures.start 1000) failed 25 _ _
              eq_refl eq_refl eq_refl eq_refl eq_refl ltac:(cbn; lia))
    as (_ & _ & _ & Hsent).
  exact (f_equal (@List.length HttpRequest) Hsent).
Defined.

(** ** Every failure is classified *)

Lemma acquireToken_try_throws (now : Z) (r : HttpResponse) (e : JsError) :
  OAuth.acquireToken_try now r = Throw e ->
  e = OAuth.null_body
  \/ is_carrier_error e = true
     /\ (error_code e = Some AUTH_FAILED
         \/ error_code e = Some MALFORMED_RESPONSE).
Proof.
  unfold OAuth.acquireToken_try.
  destruct (negb (status r =? 200)); [intros [= <-]; cbn; auto|].
  destruct (is_null (response_body r)); [intros [= <-]; auto|].
  cbv zeta.
  destruct (access_token (as_token (response_body r))) as [tok|];
    [|intros [= <-]; cbn; auto].
  destruct (expires_in (as_token (response_body r))) as [secs|];
    [|intros [= <-]; cbn; auto].
  destruct (negb _ || negb _); [intros [= <-]; cbn; auto|discriminate].
Qed.

Lemma acquireToken_resume_throws (now : Z) (out : TransportOutcome)
    (e : JsError) :
  OAuth.acquireToken_resume now out = Throw e ->
  is_carrier_error e = true
  /\ ((forall x, out = Raises x -> is_carrier_error x = false) ->
      error_code e = Some AUTH_FAILED
      \/ error_code e = Some MALFORMED_RESPONSE).
Proof.
  unfold OAuth.acquireToken_resume. destruct out as [r|x].
  - destruct (OAuth.acquireToken_try now r) as [t|e0] eqn:Htry; cbn;
      [discriminate|].
    destruct (acquireToken_try_throws now r e0 Htry) as [-> | [Hc Hcode]].
    + intros [= <-]. cbn. auto.
    + unfold OAuth.acquireToken_catch. rewrite Hc. intros [= <-]. auto.
  - unfold OAuth.acquireToken_catch.
    destruct (is_carrier_error x) eqn:Hx; intros [= <-]; cbn.
    + split; [exact Hx|]. intros H. rewrite (H x eq_refl) in Hx. discriminate.
    + auto.
Qed.

Lemma getAccessToken_throws (c : OAuth.OAuthClient) (w : World) (e : JsError) :
  fst (getAccessToken c w) = Settles (Throw e) -> is_carrier_error e = true.
Proof.
  unfold getAccessToken.
  destruct (OAuth.getAccessToken_enter _ _ _ _) as [[s|p|p req] st]; cbn;
    try discriminate.
  destruct (transport _ _ _) as [elapsed out].
  destruct (OAuth.acquireToken_resume _ out) as [t|e'] eqn:Hacq; cbn;
    [discriminate|].
  intros [= <-]. now apply acquireToken_resume_throws in Hacq.
Qed.

Lemma getRates_catch_throws {A} (e : JsError) (w : World) :
  exists e', fst (@UPS.getRates_catch A e w) = Settles (Throw e')
             /\ is_carrier_error e' = true.
Proof.
  unfold UPS.getRates_catch. destruct (is_carrier_error e) eqn:He; cbn; eauto.
  destruct (UPS.is_timeout e); cbn; eauto.
Qed.

(** X13.  Neither the token manager nor the adapter ever lets an
    unclassified error out: whatever the transport answers or raises, a
    failure of [getAccessToken] and a failure of [getRates] is a
    [CarrierIntegrationError].  A failed acquisition has the code
    AUTH_FAILED or MALFORMED_RESPONSE unless the transport itself raised a
    [CarrierIntegrationError]. *)
Theorem failures_are_classified (Date_getTime : string -> Js.Number)
    (Date_drift : nat -> Z * Z) (a : UPS.UPSAdapter) (request : RateRequest) (c : OAuth.OAuthClient)
    (w : World) (e : JsError) :
  (fst (getAccessToken c w) = Settles (Throw e) -> is_carrier_error e = true)
  /\ (fst (UPS.getRates Date_getTime Date_drift a request w) = Settles (Throw e) ->
      is_carrier_error e = true)
  /\ (forall now out,
        OAuth.acquireToken_resume now out = Throw e ->
        (forall x, out = Raises x -> is_carrier_error x = false) ->
        error_code e = Some AUTH_FAILED
        \/ error_code e = Some MALFORMED_RESPONSE).
Proof.
  split; [apply getAccessToken_throws|]. split.
  - unfold UPS.getRates, bind at 1.
    destruct (getAccessToken (UPS.oauthClient (UPS.config a)) w)
      as [[[tok|e0]|p] w1] eqn:Htok.
    + unfold catch.
      destruct (UPS.getRates_try Date_getTime Date_drift a _ w1) as [[[qs|e1]|p] w2];
        cbn; try discriminate.
      destruct (@getRates_catch_throws (list RateQuote) e1 w2)
        as (e' & He' & Hc). rewrite He'. now intros [= <-].
    + cbn. intros [= <-].
      apply (getAccessToken_throws (UPS.oauthClient (UPS.config a)) w).
      now rewrite Htok.
    + discriminate.
  - intros now out H. now apply acquireToken_resume_throws in H.
Qed.

Lemma failures_are_classified_witness :
  let a :=
    Fixtures.adapter
      [(25, Fixtures.respond 200 (Fixtures.tokenBody "test-token" 3600));
       (40, Raises (NonError "socket hang up"))] in
  exists e,
    fst (UPS.getRates (fun _ => Js.NaN) (fun _ => (0, 0)) a
           Fixtures.validRateRequest
           (Fixtures.start 1000)) = Settles (Throw e)
    /\ is_carrier_error e = true.
Proof.
  intros a. eexists. split; [reflexivity|].
  apply (proj1 (proj2 (failures_are_classified (fun _ => Js.NaN)
                         (fun _ => (0, 0)) a
                         Fixtures.validRateRequest
                         (UPS.oauthClient (UPS.config a))
                         (Fixtures.start 1000) _))).
  reflexivity.
Defined.

(** X14.  [clearToken] forces a new token: whatever token was cached and
    however long it had left, the next [getAccessToken] does not answer from
    the cache; with no acquisition in flight it dispatches a token request.
    Clearing twice is the same as clearing once, and clearing leaves the
    in-flight marker alone. *)
Theorem clearToken_forces_acquisition (c : OAuth.OAuthClient) (w : World) :
  let cleared := snd (clearToken w) in
  OAuth.token (oauth cleared) = None
  /\ OAuth.tokenRefreshPromise (oauth cleared)
     = OAuth.tokenRefreshPromise (oauth w)
  /\ snd (clearToken cleared) = cleared
  /\ (forall s, fst (getAccessToken c cleared) = Settles (Ok s) ->
        (List.length (sent w)
         < List.length (sent (snd (getAccessToken c cleared))))%nat)
  /\ (OAuth.tokenRefreshPromise (oauth w) = None ->
      sent (snd (getAccessToken c cleared))
      = (sent w ++ [OAuth.acquireToken_request (OAuth.config c)])%list)
  /\ (forall p, OAuth.tokenRefreshPromise (oauth w) = Some p ->
        getAccessToken c cleared = (Pending p, cleared)).
Proof.
  intros cleared. unfold cleared, clearToken. cbn [snd oauth sent clock].
  split; [reflexivity|]. split; [reflexivity|]. split; [reflexivity|].
  unfold getAccessToken, OAuth.getAccessToken_enter.
  cbn [oauth sent clock OAuth.clearToken OAuth.token
       OAuth.tokenRefreshPromise].
  destruct (OAuth.tokenRefreshPromise (oauth w)) as [p|].
  - split; [discriminate|]. split; [discriminate|].
    intros q [= <-]. reflexivity.
  - destruct (transport _ _ _) as [elapsed out].
    destruct (OAuth.getAccessToken_resume _ _ _) as [r st].
    cbn [fst snd sent]. split; [|split; [reflexivity|discriminate]].
    intros s _. rewrite List.length_app. cbn. lia.
Qed.

Lemma clearToken_forces_acquisition_witness :
  let c :=
    Fixtures.oauthClient
      [(0, Raises (PlainError "Error" "unused"));
       (25, Fixtures.respond 200 (Fixtures.tokenBody "fresh-token" 3600))] in
  let w := Fixtures.holding 1000 3600000 in
  fst (getAccessToken c w) = Settles (Ok "cached-token")
  /\ sent (snd (getAccessToken c (snd (clearToken w))))
     = [OAuth.acquireToken_request Fixtures.oauthConfig;
        OAuth.acquireToken_request Fixtures.oauthConfig].
Proof.
  intros c w. split; [reflexivity|].
  exact (proj1 (proj2 (proj2 (proj2 (proj2
           (clearToken_forces_acquisition c w))))) eq_refl).
Defined.

(** ** The caller queue under arbitrary interleavings *)

Section Interleavings.

Import EventLoop.

Variable c : OAuth.OAuthConfig.

Lemma enter_cases (now : Z) (fresh : PromiseId) (st : OAuth.State) :
  (exists s, OAuth.getAccessToken_enter c now fresh st
             = (OAuth.Immediately s, st)
             /\ OAuth.has_valid_token now st = true)
  \/ (exists p, OAuth.getAccessToken_enter c now fresh st = (OAuth.Joins p, st)
                /\ OAuth.tokenRefreshPromise st = Some p
                /\ OAuth.has_valid_token now st = false)
  \/ (OAuth.getAccessToken_enter c now fresh st
      = (OAuth.Starts fresh (OAuth.acquireToken_request c),
         {| OAuth.token := OAuth.token st;
            OAuth.tokenRefreshPromise := Some fresh |})
      /\ OAuth.tokenRefreshPromise st = None
      /\ OAuth.has_valid_token now st = false).
Proof.
  destruct (OAuth.has_valid_token now st) eqn:Hv.
  - left. unfold OAuth.has_valid_token in Hv.
    destruct (OAuth.token st) as [t|] eqn:Ht; [|discriminate].
    exists (OAuth.accessToken t). split; [|reflexivity].
    now apply enter_valid.
  - right. destruct (OAuth.tokenRefreshPromise st) as [p|] eqn:Hp.
    + left. exists p. split; [|auto]. now apply enter_invalid_in_flight.
    + right. split; [|auto]. now apply enter_invalid_idle.
Qed.

Lemma wake_others (p q : PromiseId) r (ws : list Parked) st :
  forallb (Flight.waits_on p) ws = true -> q <> p ->
  wake q r ws st = ([], ws, st).
Proof.
  intros Hws Hne. induction ws as [|[[i role] p'] ws IH]; [reflexivity|].
  cbn in Hws. apply andb_prop in Hws. destruct Hws as [Hw Hws].
  destruct role; [discriminate|]. apply Nat.eqb_eq in Hw. subst p'.
  cbn [wake]. replace (p =? q)%nat with false
    by (symmetry; apply Nat.eqb_neq; congruence).
  now rewrite (IH Hws).
Qed.

Lemma wake_all_waiters (p : PromiseId) r (ws : list Parked) st :
  forallb (Flight.waits_on p) ws = true ->
  wake p r ws st = (map (fun e => (fst (fst e), answer r)) ws, [], st).
Proof.
  intros Hws. induction ws as [|[[i role] p'] ws IH]; [reflexivity|].
  cbn in Hws. apply andb_prop in Hws. destruct Hws as [Hw Hws].
  destruct role; [discriminate|]. apply Nat.eqb_eq in Hw. subst p'.
  cbn [wake]. rewrite Nat.eqb_refl, resume_waiter, (IH Hws). reflexivity.
Qed.

Lemma step_well_parked (L : Loop) (e : Event) :
  Flight.well_parked L = true -> Flight.well_parked (step c L e) = true.
Proof.
  unfold Flight.well_parked. intros H. destruct e as [now|q now out|].
  - cbn [step].
    destruct (enter_cases now (List.length (dispatched L)) (manager L))
      as [(s & -> & _) | [(p & -> & Hp & _) | (-> & Hp & _)]];
      cbn [manager parked].
    + exact H.
    + rewrite Hp in *. destruct (parked L) as [|[[i role] p'] ws];
        [discriminate|]. destruct role; [|discriminate].
      cbn [app]. apply andb_prop in H. destruct H as [H1 H2].
      rewrite H1, forallb_app, H2. cbn. now rewrite Nat.eqb_refl.
    + rewrite Hp in H. destruct (parked L); [|discriminate].
      cbn. now rewrite Nat.eqb_refl.
  - cbn [step].
    destruct (OAuth.tokenRefreshPromise (manager L)) as [p|] eqn:Hp.
    + destruct (parked L) as [|[[i role] p'] ws]; [discriminate|].
      destruct role; [|discriminate].
      apply andb_prop in H. destruct H as [H1 H2].
      apply Nat.eqb_eq in H1. subst p'. cbn [wake].
      destruct (Nat.eqb_spec p q) as [<- | Hne].
      * rewrite resume_owner, (wake_all_waiters _ _ _ _ H2). reflexivity.
      * rewrite (wake_others p q _ ws _ H2) by congruence.
        cbn [manager parked]. rewrite Hp, Nat.eqb_refl, H2. reflexivity.
    + destruct (parked L); [|discriminate]. cbn. now rewrite Hp.
  - cbn. exact H.
Qed.

End Interleavings.

(** X15.  However calls of [getAccessToken], calls of [clearToken] and
    settlements of token requests interleave, at most one acquisition is in
    flight: the suspended callers are one owner followed by waiters on the
    owner's promise only while the marker is set, and nobody is suspended
    while it is clear.  In particular two owners are never parked
    together. *)
Theorem at_most_one_acquisition_in_flight (c : OAuth.OAuthConfig)
    (L : EventLoop.Loop) (es : list EventLoop.Event) :
  Flight.well_parked L = true ->
  let L' := EventLoop.run c L es in
  Flight.well_parked L' = true
  /\ (List.length (filter Flight.is_owner (EventLoop.parked L')) <= 1)%nat
  /\ (OAuth.tokenRefreshPromise (EventLoop.manager L') = None ->
      EventLoop.parked L' = []).
Proof.
  intros H L'.
  assert (Hwp : Flight.well_parked L' = true).
  { unfold L'. clear L'. revert L H.
    induction es as [|e es IH]; intros L H; [exact H|].
    rewrite run_cons. apply IH. now apply step_well_parked. }
  split; [exact Hwp|]. unfold Flight.well_parked in Hwp. split.
  - destruct (OAuth.tokenRefreshPromise (EventLoop.manager L')) as [p|];
      destruct (EventLoop.parked L') as [|[[i role] q] ws];
      try discriminate; cbn; [|lia].
    destruct role; [|discriminate]. cbn.
    apply andb_prop in Hwp. destruct Hwp as [_ Hws].
    replace (filter Flight.is_owner ws) with (@nil EventLoop.Parked);
      [cbn; lia|].
    clear -Hws. induction ws as [|[[j role] q'] ws IH]; [reflexivity|].
    cbn in Hws. apply andb_prop in Hws. destruct Hws as [Hw Hws].
    destruct role; [discriminate|]. cbn. now apply IH.
  - intros Hnone. rewrite Hnone in Hwp.
    now destruct (EventLoop.parked L').
Qed.

Lemma at_most_one_acquisition_in_flight_witness :
  let L :=
    EventLoop.run Fixtures.oauthConfig (EventLoop.idle OAuth.initial)
      [EventLoop.Invoke 0; EventLoop.ClearToken; EventLoop.Invoke 5;
       EventLoop.Settle 7%nat 9 (Raises (NonError "stray"));
       EventLoop.Invoke 10] in
  (List.length (filter Flight.is_owner (EventLoop.parked L)) <= 1)%nat.
Proof.
  intros L.
  exact (proj1 (proj2 (at_most_one_acquisition_in_flight Fixtures.oauthConfig
                         (EventLoop.idle OAuth.initial) _ eq_refl))).
Defined.

Section Misses.

Import EventLoop.

Variable c : OAuth.OAuthConfig.

Lemma misses_same_token (st st' : OAuth.State) (e : Event) :
  OAuth.token st' = OAuth.token st \/ OAuth.token st' = None ->
  Flight.misses st e = true -> Flight.misses st' e = true.
Proof.
  intros Ht. destruct e as [now| |]; cbn; auto.
  unfold OAuth.has_valid_token. destruct Ht as [-> | ->]; auto.
Qed.

(** While acquisition [p] is in flight, calls that miss the cache and
    [clearToken]s only queue waiters on [p]. *)
Lemma run_misses (L : Loop) (p : PromiseId) (es : list Event) :
  OAuth.tokenRefreshPromise (manager L) = Some p ->
  forallb (Flight.misses (manager L)) es = true ->
  let n := List.length (filter Flight.is_invoke es) in
  let L' := run c L es in
  OAuth.tokenRefreshPromise (manager L') = Some p
  /\ dispatched L' = dispatched L
  /\ parked L' = (parked L ++ waiters p (invoked L) n)%list
  /\ answered L' = answered L
  /\ invoked L' = (invoked L + n)%nat.
Proof.
  revert L. induction es as [|e es IH]; intros L Hp Hall; cbn zeta.
  - cbn. rewrite app_nil_r, Nat.add_0_r. auto.
  - cbn [forallb] in Hall. apply andb_prop in Hall.
    destruct Hall as [He Hes]. rewrite run_cons.
    destruct e as [now|q now out|]; [| discriminate |].
    + cbn in He. apply negb_true_iff in He.
      unfold step. rewrite (enter_invalid_in_flight c now _ _ p He Hp).
      match goal with |- context [run c ?L1 es] =>
        destruct (IH L1 Hp Hes) as (H1 & H2 & H3 & H4 & H5) end.
      cbn [manager dispatched parked answered invoked] in *.
      cbn [filter Flight.is_invoke List.length].
      rewrite H1, H2, H3, H4, H5. repeat split; try lia.
      rewrite <- app_assoc. reflexivity.
    + unfold step.
      match goal with |- context [run c ?L1 es] =>
        destruct (IH L1) as (H1 & H2 & H3 & H4 & H5) end.
      * exact Hp.
      * cbn [manager]. rewrite forallb_forall in *. intros x Hx.
        apply (misses_same_token (manager L)); [now right | now apply Hes].
      * cbn [manager dispatched parked answered invoked] in *.
        cbn [filter Flight.is_invoke]. auto.
Qed.

End Misses.

(** X16.  Single flight holds up against [clearToken]: let a first call
    start an acquisition, and let any number of further calls that miss the
    cache and of [clearToken] calls follow before the token request
    settles.  Then that request remains the only one dispatched, every
    caller gets the one answer when it settles, nobody stays parked, the
    marker is cleared, and on success the new token is cached even though
    the cache was cleared in between. *)
Theorem single_flight_despite_clears (c : OAuth.OAuthConfig)
    (L : EventLoop.Loop) (now : Z) (es : list EventLoop.Event)
    (settledAt : Z) (out : TransportOutcome) :
  EventLoop.parked L = [] ->
  OAuth.tokenRefreshPromise (EventLoop.manager L) = None ->
  OAuth.has_valid_token now (EventLoop.manager L) = false ->
  forallb (Flight.misses (EventLoop.manager L)) es = true ->
  let p := List.length (EventLoop.dispatched L) in
  let called := EventLoop.run c L (EventLoop.Invoke now :: es) in
  let final := EventLoop.run c called [EventLoop.Settle p settledAt out] in
  let r := EventLoop.answer (OAuth.acquireToken_resume settledAt out) in
  let n := S (List.length (filter Flight.is_invoke es)) in
  EventLoop.dispatched final
  = (EventLoop.dispatched L ++ [OAuth.acquireToken_request c])%list
  /\ EventLoop.answered final
     = (EventLoop.answered L
          ++ map (fun i => (i, r)) (seq (EventLoop.invoked L) n))%list
  /\ EventLoop.parked final = []
  /\ OAuth.tokenRefreshPromise (EventLoop.manager final) = None
  /\ (forall t, OAuth.acquireToken_resume settledAt out = Ok t ->
        OAuth.token (EventLoop.manager final) = Some t).
Proof.
  intros Hparked Hp Hv Hes p called final r n.
  set (L1 :=
         {| EventLoop.manager :=
              {| OAuth.token := OAuth.token (EventLoop.manager L);
                 OAuth.tokenRefreshPromise := Some p |};
            EventLoop.dispatched :=
              EventLoop.dispatched L ++ [OAuth.acquireToken_request c];
            EventLoop.parked :=
              EventLoop.parked L ++ [(EventLoop.invoked L, OAuth.Owner, p)];
            EventLoop.answered := EventLoop.answered L;
            EventLoop.invoked := S (EventLoop.invoked L) |}).
  assert (Hcalled : called = EventLoop.run c L1 es).
  { unfold called. rewrite run_cons. unfold EventLoop.step.
    now rewrite (enter_invalid_idle c now _ _ Hv Hp). }
  destruct (run_misses c L1 p es eq_refl) as (H1 & H2 & H3 & H4 & H5).
  { cbn [EventLoop.manager L1]. rewrite forallb_forall in *. intros x Hx.
    apply (misses_same_token (EventLoop.manager L)); [now left | now apply Hes]. }
  cbn [EventLoop.manager EventLoop.dispatched EventLoop.parked
       EventLoop.answered EventLoop.invoked L1] in H1, H2, H3, H4, H5.
  rewrite Hparked in H3. cbn [app] in H3.
  assert (Hfinal : final
    = {| EventLoop.manager :=
           {| OAuth.token :=
                match OAuth.acquireToken_resume settledAt out with
                | Ok t => Some t
                | Throw _ =>
                    OAuth.token (EventLoop.manager (EventLoop.run c L1 es))
                end;
              OAuth.tokenRefreshPromise := None |};
         EventLoop.dispatched :=
           EventLoop.dispatched L ++ [OAuth.acquireToken_request c];
         EventLoop.parked := [];
         EventLoop.answered :=
           EventLoop.answered L
             ++ (EventLoop.invoked L, r)
             :: map (fun i => (i, r))
                  (seq (S (EventLoop.invoked L))
                     (List.length (filter Flight.is_invoke es)));
         EventLoop.invoked :=
           (S (EventLoop.invoked L)
            + List.length (filter Flight.is_invoke es))%nat |}).
  { unfold final. rewrite Hcalled. unfold EventLoop.run at 1.
    cbn [fold_left EventLoop.step].
    rewrite H3. cbn [EventLoop.wake]. rewrite Nat.eqb_refl, resume_owner.
    rewrite wake_waiters, H2, H4, H5. reflexivity. }
  rewrite Hfinal. cbn. repeat split.
  intros t ->. reflexivity.
Qed.

Lemma single_flight_despite_clears_witness :
  let c := Fixtures.oauthConfig in
  let called :=
    EventLoop.run c (EventLoop.idle OAuth.initial)
      [EventLoop.Invoke 0; EventLoop.ClearToken; EventLoop.Invoke 5;
       EventLoop.ClearToken] in
  let final :=
    EventLoop.run c called
      [EventLoop.Settle 0%nat 30
         (Fixtures.respond 200 (Fixtures.tokenBody "concurrent-token" 3600))] in
  EventLoop.dispatched final = [OAuth.acquireToken_request c]
  /\ EventLoop.answered final
     = [(0%nat, Ok "concurrent-token"); (1%nat, Ok "concurrent-token")].
Proof.
  intros c called final.
  destruct (single_flight_despite_clears c (EventLoop.idle OAuth.initial) 0
              [EventLoop.ClearToken; EventLoop.Invoke 5; EventLoop.ClearToken]
              30 (Fixtures.respond 200
                    (Fixtures.tokenBody "concurrent-token" 3600))
              eq_refl eq_refl eq_refl eq_refl) as (Hd & Ha & _).
  split; [exact Hd | exact Ha].
Defined.

Section Bursts.

Import EventLoop.

Variable c : OAuth.OAuthConfig.

Lemma run_in_flight_no_settle (L : Loop) (p : PromiseId) (es : list Event) :
  OAuth.tokenRefreshPromise (manager L) = Some p ->
  forallb (fun e => negb (Flight.is_settle e)) es = true ->
  dispatched (run c L es) = dispatched L.
Proof.
  revert L. induction es as [|e es IH]; intros L Hp Hes; [reflexivity|].
  cbn [forallb] in Hes. apply andb_prop in Hes. destruct Hes as [He Hes].
  rewrite run_cons. destruct e as [now|q now out|]; [|discriminate|].
  - unfold step.
    destruct (enter_cases c now (List.length (dispatched L)) (manager L))
      as [(s & -> & _) | [(p' & -> & _ & _) | (_ & Hnone & _)]];
      [| |congruence]; now rewrite IH.
  - now rewrite IH.
Qed.

End Bursts.

(** X17.  Between two settlements the token manager dispatches at most one
    token request, whatever calls of [getAccessToken] (answered from the
    cache or not) and of [clearToken] are made; and while an acquisition is
    in flight it dispatches none. *)
Theorem one_request_between_settlements (c : OAuth.OAuthConfig)
    (L : EventLoop.Loop) (es : list EventLoop.Event) :
  forallb (fun e => negb (Flight.is_settle e)) es = true ->
  (List.length (EventLoop.dispatched (EventLoop.run c L es))
   <= List.length (EventLoop.dispatched L) + 1)%nat
  /\ (OAuth.tokenRefreshPromise (EventLoop.manager L) <> None ->
      EventLoop.dispatched (EventLoop.run c L es) = EventLoop.dispatched L).
Proof.
  intros Hes. split.
  - revert L. induction es as [|e es IH]; intros L; [cbn; lia|].
    cbn [forallb] in Hes. apply andb_prop in Hes. destruct Hes as [He Hes].
    rewrite run_cons. destruct e as [now|q now out|]; [|discriminate|].
    + unfold EventLoop.step.
      destruct (enter_cases c now (List.length (EventLoop.dispatched L))
                  (EventLoop.manager L))
        as [(s & -> & _) | [(p' & -> & _ & _) | (-> & _ & _)]].
      * match goal with |- context [EventLoop.run c ?L1 es] =>
          exact (IH Hes L1) end.
      * match goal with |- context [EventLoop.run c ?L1 es] =>
          exact (IH Hes L1) end.
      * match goal with |- context [EventLoop.run c ?L1 es] =>
          rewrite (run_in_flight_no_settle c L1
                     (List.length (EventLoop.dispatched L)) es eq_refl Hes)
        end.
        cbn. rewrite List.length_app. cbn. lia.
    + match goal with |- context [EventLoop.run c ?L1 es] =>
        exact (IH Hes L1) end.
  - intros Hp.
    destruct (OAuth.tokenRefreshPromise (EventLoop.manager L)) as [p|] eqn:E;
      [|congruence].
    now apply (run_in_flight_no_settle c L p).
Qed.

Lemma one_request_between_settlements_witness :
  (List.length
     (EventLoop.dispatched
        (EventLoop.run Fixtures.oauthConfig (EventLoop.idle OAuth.initial)
           [EventLoop.Invoke 0; EventLoop.ClearToken; EventLoop.Invoke 3;
            EventLoop.Invoke 4]))
   <= 1)%nat.
Proof.
  exact (proj1 (one_request_between_settlements Fixtures.oauthConfig
                  (EventLoop.idle OAuth.initial)
                  [EventLoop.Invoke 0; EventLoop.ClearToken;
                   EventLoop.Invoke 3; EventLoop.Invoke 4] eq_refl)).
Defined.

(** ** The adapter: what one call dispatches *)

Section Budget.

Import Budget.

Lemma grows_by_refl (w : World) : grows_by w w 0 0.
Proof. exists []. rewrite app_nil_r. cbn. repeat split; lia. Qed.

Lemma grows_by_same (w w' : World) :
  sent w' = sent w -> clock w' = clock w -> grows_by w w' 0 0.
Proof.
  intros Hs Hc. exists []. rewrite app_nil_r, Hs, Hc. cbn.
  repeat split; lia.
Qed.

Lemma grows_by_trans (w1 w2 w3 : World) (a b a' b' : nat) :
  grows_by w1 w2 a b -> grows_by w2 w3 a' b' ->
  grows_by w1 w3 (a + a') (b + b').
Proof.
  intros (x & Hx & Hxa & Hxb & Hc) (y & Hy & Hya & Hyb & Hc').
  exists (x ++ y)%list. rewrite Hy, Hx, <- app_assoc, !filter_app,
    !List.length_app. repeat split; lia.
Qed.

Lemma grows_by_weaken (w w' : World) (a b a' b' : nat) :
  grows_by w w' a b -> (a <= a')%nat -> (b <= b')%nat -> grows_by w w' a' b'.
Proof.
  intros (x & Hx & Hxa & Hxb & Hc) Ha Hb. exists x. repeat split; auto; lia.
Qed.

Lemma after_request_grows (w : World) (req : HttpRequest) (elapsed : Z) :
  grows_by w (after_request w req elapsed)
    (if is_rating_request req then 0 else 1)
    (if is_rating_request req then 1 else 0).
Proof.
  exists [req]. unfold after_request. cbn.
  destruct (is_rating_request req); cbn; repeat split; lia.
Qed.

Lemma getAccessToken_grows (c : OAuth.OAuthClient) (w : World) :
  grows_by w (snd (getAccessToken c w)) 1 0.
Proof.
  unfold getAccessToken.
  destruct (enter_cases (OAuth.config c) (clock w) (List.length (sent w))
              (oauth w))
    as [(s & -> & _) | [(p & -> & _ & _) | (-> & _ & _)]]; cbn [snd].
  - apply (grows_by_weaken _ _ 0 0); [|lia|lia]. now apply grows_by_same.
  - apply (grows_by_weaken _ _ 0 0); [|lia|lia]. now apply grows_by_same.
  - destruct (transport _ _ _) as [elapsed out].
    destruct (OAuth.getAccessToken_resume _ _ _) as [r st]. cbn [snd].
    exists [OAuth.acquireToken_request (OAuth.config c)]. cbn.
    repeat split; lia.
Qed.

Lemma getRates_catch_grows {A} (e : JsError) (w : World) :
  grows_by w (snd (@UPS.getRates_catch A e w)) 0 0.
Proof. rewrite getRates_catch_world. apply grows_by_refl. Qed.

End Budget.

(** X18.  One call of [getRates] only ever adds to the log of requests, and
    it adds at most two token requests and at most two rating requests,
    four requests in all; the clock it leaves is not before the clock it
    found. *)
Theorem getRates_request_budget (Date_getTime : string -> Js.Number)
    (Date_drift : nat -> Z * Z) (a : UPS.UPSAdapter) (request : RateRequest)
    (w : World) :
  Budget.grows_by w (snd (UPS.getRates Date_getTime Date_drift a request w))
    2 2.
Proof.
  pose proof (getAccessToken_grows (UPS.oauthClient (UPS.config a)) w) as H0.
  destruct (getAccessToken (UPS.oauthClient (UPS.config a)) w)
    as [[[tok|e]|p] w1] eqn:Htok; cbn [snd] in H0.
  2,3: unfold UPS.getRates, bind; rewrite Htok; cbn [snd];
       apply (grows_by_weaken _ _ 1 0); [exact H0|lia|lia].
  destruct (transport (UPS.httpClient a) (sent w1)
              (UPS.rateRequest a request tok)) as [elapsed out] eqn:Hout.
  pose proof (after_request_grows w1 (UPS.rateRequest a request tok) elapsed)
    as H1. cbn in H1.
  pose proof (grows_by_trans _ _ _ _ _ _ _ H0 H1) as H01. cbn in H01.
  destruct out as [r|e].
  - destruct (Z.eq_dec (status r) 401) as [H401|H401].
    + rewrite (getRates_retry Date_getTime Date_drift a request w w1 tok elapsed r
                 Htok Hout H401). cbv zeta.
      match goal with
      | |- context [getAccessToken ?c ?w'] =>
          pose proof (getAccessToken_grows c w') as H2;
          destruct (getAccessToken c w') as [[[newToken|e]|p] w3]
      end; cbn [snd] in H2.
      * assert (H12 : Budget.grows_by w w3 2 1).
        { apply (grows_by_trans _ _ _ 1 1 1 0 H01).
          destruct H2 as (x & Hx & Hr). exists x. exact (conj Hx Hr). }
        match goal with
        | |- context [after_request w3 ?req ?el] =>
            pose proof (after_request_grows w3 req el) as H3
        end. cbn in H3.
        pose proof (grows_by_trans _ _ _ _ _ _ _ H12 H3) as H123.
        cbn in H123.
        destruct (snd (transport _ _ _)); cbn [snd];
          [|rewrite getRates_catch_world]; exact H123.
      * rewrite getRates_catch_world.
        apply (grows_by_weaken _ _ 2 1); [|lia|lia].
        apply (grows_by_trans _ _ _ 1 1 1 0 H01).
        destruct H2 as (x & Hx & Hr). exists x. exact (conj Hx Hr).
      * cbn [snd]. apply (grows_by_weaken _ _ 2 1); [|lia|lia].
        apply (grows_by_trans _ _ _ 1 1 1 0 H01).
        destruct H2 as (x & Hx & Hr). exists x. exact (conj Hx Hr).
    + pose proof (getRates_first_dispatch Date_getTime Date_drift a request w w1 tok
                    elapsed _ Htok Hout) as Hrun.
      cbv zeta in Hrun. rewrite (Hrun H401).
      destruct (status r =? 429); [|destruct (500 <=? status r);
        [|destruct (negb (status r =? 200));
          [|destruct (is_null (response_body r))]]]; cbn [snd];
        (apply (grows_by_weaken _ _ 1 1); [exact H01|lia|lia]).
  - pose proof (getRates_first_dispatch Date_getTime Date_drift a request w w1 tok
                  elapsed _ Htok Hout) as Hrun.
    cbv zeta in Hrun. rewrite Hrun, getRates_catch_world.
    apply (grows_by_weaken _ _ 1 1); [exact H01|lia|lia].
Qed.

(** ** The adapter: the retry in detail *)

Lemma with_authorization_rebuilds (a : UPS.UPSAdapter) (request : RateRequest)
    (tok newToken : string) :
  UPS.with_authorization (UPS.rateRequest a request tok)
    ("Bearer " ++ newToken)
  = UPS.rateRequest a request newToken.
Proof. reflexivity. Qed.

(** X19.  When the first rating dispatch answers 401 and no acquisition is
    in flight, [getRates] dispatches, in this order and nothing else, a
    token request and then the rating request rebuilt with the token that
    request returned: same URL, method, body and headers, and
    [Authorization: Bearer <new token>].  The token request is dispatched
    even if the cleared token still had validity left, and the new token is
    left in the cache. *)
Theorem retry_uses_freshly_acquired_token
    (Date_getTime : string -> Js.Number) (Date_drift : nat -> Z * Z)
    (a : UPS.UPSAdapter) (request : RateRequest) (w w1 : World) (tok : string) (elapsed : Z)
    (r : HttpResponse) (elapsed2 : Z) (out2 : TransportOutcome)
    (t2 : OAuth.OAuthToken) :
  let oc := UPS.oauthClient (UPS.config a) in
  let first := UPS.rateRequest a request tok in
  let tokenRequest := OAuth.acquireToken_request (OAuth.config oc) in
  getAccessToken oc w = (Settles (Ok tok), w1) ->
  transport (UPS.httpClient a) (sent w1) first = (elapsed, Responds r) ->
  status r = 401 ->
  OAuth.tokenRefreshPromise (oauth w1) = None ->
  transport (OAuth.httpClient oc) (sent w1 ++ [first]) tokenRequest
  = (elapsed2, out2) ->
  OAuth.acquireToken_resume
    (clock w1 + Z.max 0 elapsed + Z.max 0 elapsed2) out2 = Ok t2 ->
  let final := snd (UPS.getRates Date_getTime Date_drift a request w) in
  sent final
  = (sent w1
       ++ [first; tokenRequest;
           UPS.rateRequest a request (OAuth.accessToken t2)])%list
  /\ Fixtures.authorization
       (UPS.rateRequest a request (OAuth.accessToken t2))
     = Some ("Bearer " ++ OAuth.accessToken t2)
  /\ OAuth.token (oauth final) = Some t2.
Proof.
  intros oc first tokenRequest Htok Hout H401 Hidle Hout2 Hacq final.
  unfold final. subst first tokenRequest.
  rewrite (getRates_retry Date_getTime Date_drift a request w w1 tok elapsed r
             Htok Hout H401). cbv zeta. fold oc.
  match goal with |- context [getAccessToken oc ?cl] => set (cleared := cl) end.
  assert (Hre : getAccessToken oc cleared
                = (Settles (Ok (OAuth.accessToken t2)),
                   {| clock := clock w1 + Z.max 0 elapsed + Z.max 0 elapsed2;
                      oauth := {| OAuth.token := Some t2;
                                  OAuth.tokenRefreshPromise := None |};
                      sent := (sent w1 ++ [UPS.rateRequest a request tok])
                              ++ [OAuth.acquireToken_request
                                    (OAuth.config oc)] |})).
  { rewrite (getAccessToken_acquires oc cleared elapsed2 out2);
      [|reflexivity|exact Hidle|exact Hout2].
    cbn [clock cleared after_request]. now rewrite Hacq. }
  rewrite Hre. rewrite with_authorization_rebuilds.
  split; [|split; [reflexivity|]].
  - destruct (snd (transport _ _ _)); cbn [snd];
      [|rewrite getRates_catch_world]; cbn [sent after_request];
      now rewrite <- !app_assoc.
  - destruct (snd (transport _ _ _)); cbn [snd];
      [|rewrite getRates_catch_world]; reflexivity.
Qed.

Lemma retry_uses_freshly_acquired_token_witness :
  map Fixtures.authorization
    (rating_dispatches
       (snd (UPS.getRates (fun _ => Js.NaN) (fun _ => (0, 0))
               (Fixtures.adapter Fixtures.retryServerError)
               Fixtures.validRateRequest (Fixtures.start 1000))))
  = [Some "Bearer expired-token-xyz789";
     Some "Bearer test-access-token-abc123xyz"].
Proof.
  destruct (retry_uses_freshly_acquired_token (fun _ => Js.NaN)
              (fun _ => (0, 0))
              (Fixtures.adapter Fixtures.retryServerError)
              Fixtures.validRateRequest (Fixtures.start 1000) _
              "expired-token-xyz789" 40 _ 25 _ _
              eq_refl eq_refl eq_refl eq_refl eq_refl eq_refl)
    as (Hsent & _ & _).
  unfold rating_dispatches. now rewrite Hsent.
Defined.

(** X20.  A failure of the token manager comes out of [getRates] as it is,
    never re-wrapped.  When the first [getAccessToken] fails, no rating
    request is dispatched at all.  When the first dispatch answers 401 and
    the re-acquisition fails, the rating request is not dispatched a second
    time. *)
Theorem token_failure_surfaces_unchanged
    (Date_getTime : string -> Js.Number) (Date_drift : nat -> Z * Z)
    (a : UPS.UPSAdapter) (request : RateRequest) (w : World) :
  let oc := UPS.oauthClient (UPS.config a) in
  (forall e w1,
     getAccessToken oc w = (Settles (Throw e), w1) ->
     UPS.getRates Date_getTime Date_drift a request w = (Settles (Throw e), w1)
     /\ rating_dispatches w1 = rating_dispatches w)
  /\ (forall tok w1 elapsed r e w3,
        getAccessToken oc w = (Settles (Ok tok), w1) ->
        transport (UPS.httpClient a) (sent w1)
          (UPS.rateRequest a request tok) = (elapsed, Responds r) ->
        status r = 401 ->
        getAccessToken oc
          {| clock := clock w1 + Z.max 0 elapsed;
             oauth := OAuth.clearToken (oauth w1);
             sent := sent w1 ++ [UPS.rateRequest a request tok] |}
        = (Settles (Throw e), w3) ->
        UPS.getRates Date_getTime Date_drift a request w = (Settles (Throw e), w3)
        /\ rating_dispatches w3
           = (rating_dispatches w ++ [UPS.rateRequest a request tok])%list).
Proof.
  intros oc. split.
  - intros e w1 H. split.
    + unfold UPS.getRates, bind. fold oc. now rewrite H.
    + pose proof (getAccessToken_rating_dispatches oc w) as Hr.
      now rewrite H in Hr.
  - intros tok w1 elapsed r e w3 Htok Hout H401 Hre.
    rewrite (getRates_retry Date_getTime Date_drift a request w w1 tok elapsed r
               Htok Hout H401). cbv zeta. fold oc.
    unfold after_request at 1 2 3. cbn [clock oauth sent].
    rewrite Hre. split.
    + unfold UPS.getRates_catch.
      assert (Hc : is_carrier_error e = true).
      { apply (getAccessToken_throws oc
                 {| clock := clock w1 + Z.max 0 elapsed;
                    oauth := OAuth.clearToken (oauth w1);
                    sent := sent w1 ++ [UPS.rateRequest a request tok] |}).
        now rewrite Hre. }
      now rewrite Hc.
    + match type of Hre with getAccessToken oc ?cl = _ =>
        pose proof (getAccessToken_rating_dispatches oc cl) as H3 end.
      rewrite Hre in H3. cbn [snd] in H3. rewrite H3.
      pose proof (getAccessToken_rating_dispatches oc w) as H0.
      rewrite Htok in H0. cbn [snd] in H0.
      unfold rating_dispatches in *. cbn [sent].
      rewrite filter_app, H0. reflexivity.
Qed.

Lemma token_failure_surfaces_unchanged_witness :
  UPS.getRates (fun _ => Js.NaN) (fun _ => (0, 0))
    (Fixtures.adapter [(25, Fixtures.respond 401 (OtherBody "Unauthorized"))])
    Fixtures.validRateRequest (Fixtures.start 1000)
  = (Settles
       (Throw (CarrierIntegrationError AUTH_FAILED
                 "OAuth token request failed with status 401"
                 (Some (PlainError "Error" "HTTP 401")))),
     {| clock := 1025; oauth := OAuth.initial;
        sent := [OAuth.acquireToken_request Fixtures.oauthConfig] |}).
Proof.
  exact (proj1 (proj1 (token_failure_surfaces_unchanged (fun _ => Js.NaN)
                         (fun _ => (0, 0))
                         (Fixtures.adapter
                            [(25, Fixtures.respond 401
                                    (OtherBody "Unauthorized"))])
                         Fixtures.validRateRequest (Fixtures.start 1000))
                  _ _ eq_refl)).
Defined.

(** ** The adapter: the quotes of a response *)

Lemma map_throwing_nth {A B} (f : nat -> A -> Result B) (l : list A)
    (i : nat) (ys : list B) :
  map_throwing f i l = Ok ys ->
  List.length ys = List.length l
  /\ forall k x, nth_error l k = Some x ->
       exists y, nth_error ys k = Some y /\ f (i + k)%nat x = Ok y.
Proof.
  revert i ys. induction l as [|x l IH]; cbn; intros i ys H.
  - injection H as <-. split; [reflexivity|]. intros [|k] x; discriminate.
  - destruct (f i x) as [y|] eqn:Hx; [|discriminate].
    destruct (map_throwing f (S i) l) as [ys'|] eqn:Hl; [|discriminate].
    injection H as <-. destruct (IH _ _ Hl) as [Hlen Hnth].
    split; [cbn; now rewrite Hlen|].
    intros [|k] x' Hk; cbn in Hk.
    + injection Hk as <-. exists y. now rewrite Nat.add_0_r.
    + destruct (Hnth k x' Hk) as (y' & Hy' & Hf). exists y'.
      split; [exact Hy'|]. now rewrite Nat.add_succ_r.
Qed.

Lemma transformShipment_ok (Date_getTime : string -> Js.Number)
    (dateNow idNow : Z) (s : RatedShipmentEntry) (q : RateQuote) :
  UPS.transformShipment Date_getTime dateNow idNow s = Ok q ->
  carrier q = "UPS"
  /\ serviceLevelCode q = Budget.serviceCodeOf s
  /\ carrierQuoteId q
     = Some (Budget.serviceCodeOf s ++ "-" ++ Js.number_to_string idNow)
  /\ estimatedDays q = UPS.estimateDays Date_getTime dateNow s
  /\ exists ch v, UPS.selectCharges s = Some ch
                  /\ MonetaryValue ch = Some v
                  /\ Js.parseFloat v = Some (totalCost q)
                  /\ currency q = Js.or_default (CurrencyCode ch) "USD".
Proof.
  unfold UPS.transformShipment.
  destruct (UPS.selectCharges s) as [ch|]; [|discriminate].
  destruct (MonetaryValue ch) as [v|] eqn:Hv; [|discriminate].
  destruct (negb _); [discriminate|].
  destruct (Js.parseFloat v) as [cost|] eqn:Hp; [|discriminate].
  intros [= <-]. cbn. repeat split. exists ch, v. auto.
Qed.

Lemma transformResponse_nth (Date_getTime : string -> Js.Number)
    (clock : nat -> Z * Z) (response : UPSRateResponse)
    (env : RateResponseEnvelope) (shipments : list RatedShipmentEntry)
    (quotes : list RateQuote) :
  RateResponse response = Some env ->
  RatedShipment env = Some shipments ->
  UPS.transformResponse Date_getTime clock response = Ok quotes ->
  List.length quotes = List.length shipments
  /\ forall k s, nth_error shipments k = Some s ->
       exists q,
         nth_error quotes k = Some q
         /\ UPS.transformShipment Date_getTime (fst (clock k))
              (snd (clock k)) s = Ok q.
Proof.
  intros Henv Hlist H. unfold UPS.transformResponse in H.
  rewrite Henv in H. destruct (UPS.not_success_code _); [discriminate|].
  rewrite Hlist in H.
  destruct shipments as [|s0 rest].
  - injection H as <-. split; [reflexivity|]. intros [|k] s; discriminate.
  - exact (map_throwing_nth _ _ _ _ H).
Qed.

(** X21.  When [transformResponse] succeeds on a non-empty shipment list,
    the quotes correspond to the rated shipments one to one and in order:
    each quote names the carrier UPS, carries its shipment's service code
    (UNKNOWN when there is none), an estimate made with the clock as the
    callback of that shipment read it, and the identifier
    [<service code>-<Date.now()>] with the clock as that callback read it.
    The clock is read anew for every shipment: two shipments with the same
    service code get the same identifier when their callbacks read the
    same instant, and need not otherwise. *)
Theorem quotes_follow_shipments (Date_getTime : string -> Js.Number)
    (clock : nat -> Z * Z) (response : UPSRateResponse)
    (env : RateResponseEnvelope) (shipments : list RatedShipmentEntry)
    (quotes : list RateQuote) :
  RateResponse response = Some env ->
  RatedShipment env = Some shipments ->
  UPS.transformResponse Date_getTime clock response = Ok quotes ->
  List.length quotes = List.length shipments
  /\ (forall i s,
        nth_error shipments i = Some s ->
        exists q,
          nth_error quotes i = Some q
          /\ carrier q = "UPS"
          /\ serviceLevelCode q = Budget.serviceCodeOf s
          /\ estimatedDays q
             = UPS.estimateDays Date_getTime (fst (clock i)) s
          /\ carrierQuoteId q
             = Some (Budget.serviceCodeOf s ++ "-"
                       ++ Js.number_to_string (snd (clock i))))
  /\ (forall i j s1 s2 q1 q2,
        nth_error shipments i = Some s1 -> nth_error shipments j = Some s2 ->
        nth_error quotes i = Some q1 -> nth_error quotes j = Some q2 ->
        Budget.serviceCodeOf s1 = Budget.serviceCodeOf s2 ->
        snd (clock i) = snd (clock j) ->
        carrierQuoteId q1 = carrierQuoteId q2).
Proof.
  intros Henv Hlist H.
  destruct (transformResponse_nth _ _ _ _ _ _ Henv Hlist H) as [Hlen Hnth].
  clear H Hlist Henv.
  assert (Hquote : forall i s,
             nth_error shipments i = Some s ->
             exists q,
               nth_error quotes i = Some q
               /\ carrier q = "UPS"
               /\ serviceLevelCode q = Budget.serviceCodeOf s
               /\ estimatedDays q
                  = UPS.estimateDays Date_getTime (fst (clock i)) s
               /\ carrierQuoteId q
                  = Some (Budget.serviceCodeOf s ++ "-"
                            ++ Js.number_to_string (snd (clock i)))).
  { intros i s Hs. destruct (Hnth i s Hs) as (q & Hq & Htr).
    destruct (transformShipment_ok _ _ _ _ _ Htr)
      as (Hc & Hcode & Hid & Hest & _).
    exists q. auto. }
  split; [exact Hlen|]. split; [exact Hquote|].
  intros i j s1 s2 q1 q2 Hs1 Hs2 Hq1 Hq2 Hcode Hclock.
  destruct (Hquote i s1 Hs1) as (q1' & Hq1' & _ & _ & _ & Hid1).
  destruct (Hquote j s2 Hs2) as (q2' & Hq2' & _ & _ & _ & Hid2).
  rewrite Hq1 in Hq1'. injection Hq1' as <-.
  rewrite Hq2 in Hq2'. injection Hq2' as <-.
  now rewrite Hid1, Hid2, Hcode, Hclock.
Qed.

Lemma quotes_follow_shipments_witness :
  let response :=
    Fixtures.successEnvelope
      (Some [Fixtures.shipment "03" "Ground" "25.50" None;
             Fixtures.shipment "03" "Ground Saver" "21.00" None;
             Fixtures.shipment "03" "Ground Freight" "30.00" None]) in
  let clock i := (1000 + Z.of_nat i / 2, 1000 + Z.of_nat i / 2) in
  exists quotes,
    UPS.transformResponse (fun _ => Js.NaN) clock response = Ok quotes
    /\ map carrierQuoteId quotes
       = [Some "03-1000"; Some "03-1000"; Some "03-1001"]
    /\ (forall q1 q2,
          nth_error quotes 0 = Some q1 -> nth_error quotes 1 = Some q2 ->
          carrierQuoteId q1 = carrierQuoteId q2).
Proof.
  intros response clock. eexists. split; [reflexivity|].
  split; [reflexivity|].
  intros q1 q2 Hq1 Hq2.
  exact (proj2 (proj2
           (quotes_follow_shipments (fun _ => Js.NaN) clock response _ _ _
              eq_refl eq_refl eq_refl))
           0%nat 1%nat _ _ q1 q2 eq_refl eq_refl Hq1 Hq2 eq_refl eq_refl).
Defined.

(** X22.  [estimatedDays] is left out when the shipment has no guaranteed
    delivery date or an empty one; when it is present and a number it is
    never negative; and a date string that does not parse gives
    [estimatedDays = NaN], present in the quote, not left out. *)
Theorem estimated_days_range (Date_getTime : string -> Js.Number) (now : Z)
    (shipment : RatedShipmentEntry) :
  (forall k, UPS.estimateDays Date_getTime now shipment = Some (Js.Int k) ->
     0 <= k)
  /\ (forall g d,
        GuaranteedDelivery shipment = Some g -> Date g = Some d ->
        d <> EmptyString -> Date_getTime d = Js.NaN ->
        UPS.estimateDays Date_getTime now shipment = Some Js.NaN)
  /\ (GuaranteedDelivery shipment = None ->
      UPS.estimateDays Date_getTime now shipment = None)
  /\ (forall g, GuaranteedDelivery shipment = Some g ->
        Js.truthy_string (Date g) = false ->
        UPS.estimateDays Date_getTime now shipment = None).
Proof.
  unfold UPS.estimateDays. split; [|split; [|split]].
  - intros k. destruct (GuaranteedDelivery shipment) as [g|]; [|discriminate].
    destruct (Date g) as [d|]; [|discriminate].
    destruct (Js.truthy_string (Some d)); [|discriminate]. cbv zeta.
    destruct (Js.ceil_div _ _) as [|z] eqn:Hc; cbn [Js.lt_const].
    + discriminate.
    + destruct (Z.ltb_spec z 0); [discriminate|]. intros [= <-]. lia.
  - intros g d -> -> Hd ->. destruct d; [congruence|reflexivity].
  - intros ->. reflexivity.
  - intros g -> Hd. destruct (Date g) as [d|]; [|reflexivity].
    now rewrite Hd.
Qed.

Lemma estimated_days_range_witness :
  UPS.estimateDays (fun _ => Js.NaN) 1000
    (Fixtures.shipment "03" "Ground" "25.50" (Some "20260212"))
  = Some Js.NaN.
Proof.
  exact (proj1 (proj2 (estimated_days_range (fun _ => Js.NaN) 1000
                         (Fixtures.shipment "03" "Ground" "25.50"
                            (Some "20260212"))))
           _ "20260212" eq_refl eq_refl ltac:(discriminate) eq_refl).
Defined.

Lemma read_sign_plain (ch : ascii) (rest : string) :
  Ascii.eqb ch "-" = false -> Ascii.eqb ch "+" = false ->
  Js.read_sign (String ch rest) = (false, String ch rest).
Proof.
  intros Hm Hp.
  destruct ch as [[] [] [] [] [] [] [] []]; try reflexivity;
    cbn in Hm, Hp; discriminate.
Qed.

Lemma parseFloat_minus (v : string) :
  Budget.starts_plain v = true ->
  Js.parseFloat (String "-" v) = option_map Budget.negate (Js.parseFloat v).
Proof.
  intros Hplain. unfold Js.parseFloat.
  unfold Budget.starts_plain in Hplain.
  apply andb_prop in Hplain. destruct Hplain as [Htrim Hsign].
  apply String.eqb_eq in Htrim.
  assert (Hv : Js.read_sign (Js.trim_start v) = (false, v)).
  { rewrite Htrim. destruct v as [|ch rest]; [reflexivity|].
    apply andb_prop in Hsign. destruct Hsign as [Hm Hp].
    apply negb_true_iff in Hm, Hp. now apply read_sign_plain. }
  assert (Hminus : Js.trim_start (String "-" v) = String "-" v).
  { destruct v as [|c2 [|c3 r3]]; reflexivity. }
  rewrite Hv, Hminus. change (Js.read_sign (String "-" v)) with (true, v).
  cbv iota beta.
  destruct (String.prefix "Infinity" v); [reflexivity|].
  destruct (Js.read_digits v 0 0) as [[ip ni] s2].
  destruct (match s2 with
            | String "." rest => Js.read_digits rest ip 0
            | _ => (ip, 0%nat, s2)
            end) as [[m nf] s3].
  destruct (ni + nf)%nat; reflexivity.
Qed.

(** X23.  The cost is whatever [parseFloat] makes of the monetary value;
    its sign and size are not checked.  If a value [v] (with no leading
    sign or blank) gives a cost, then [-v] is accepted too, with the
    opposite cost; and a value starting with [Infinity] is accepted with an
    infinite cost. *)
Theorem cost_is_not_range_checked (Date_getTime : string -> Js.Number)
    (dateNow idNow : Z) (shipment : RatedShipmentEntry) (ch : Charges) :
  UPS.selectCharges shipment = Some ch ->
  (forall v cost,
     MonetaryValue ch = Some (String "-" v) ->
     Budget.starts_plain v = true ->
     Js.parseFloat v = Some cost ->
     exists q,
       UPS.transformShipment Date_getTime dateNow idNow shipment = Ok q
       /\ totalCost q = Budget.negate cost)
  /\ (forall rest,
        MonetaryValue ch = Some ("Infinity" ++ rest) ->
        exists q,
          UPS.transformShipment Date_getTime dateNow idNow shipment = Ok q
          /\ totalCost q = Js.Infinite false).
Proof.
  intros Hch. split.
  - intros v cost Hv Hplain Hcost. unfold UPS.transformShipment.
    rewrite Hch, Hv, (parseFloat_minus v Hplain), Hcost.
    cbn [Js.truthy_string negb option_map]. eexists. split; reflexivity.
  - intros rest Hv. unfold UPS.transformShipment. rewrite Hch, Hv.
    assert (Hinf : Js.parseFloat ("Infinity" ++ rest)
                   = Some (Js.Infinite false)).
    { unfold Js.parseFloat.
      replace (Js.trim_start ("Infinity" ++ rest))
        with (String "I" ("nfinity" ++ rest)) by reflexivity.
      replace (Js.read_sign (String "I" ("nfinity" ++ rest)))
        with (false, String "I" ("nfinity" ++ rest)) by reflexivity.
      cbv iota beta. cbn [append String.prefix].
      replace (Ascii.eqb "I" "I") with true by reflexivity. cbn.
      now destruct rest. }
    rewrite Hinf. cbn [append Js.truthy_string negb].
    eexists. split; reflexivity.
Qed.

Lemma cost_is_not_range_checked_witness :
  exists q,
    UPS.transformShipment (fun _ => Js.NaN) 1000 1001
      (Fixtures.shipment "03" "Ground" "-25.50" None) = Ok q
    /\ totalCost q = Js.Finite true 2550 (-2).
Proof.
  exact (proj1 (cost_is_not_range_checked (fun _ => Js.NaN) 1000 1001
                  (Fixtures.shipment "03" "Ground" "-25.50" None)
                  (Fixtures.charges "-25.50") eq_refl)
           "25.50" _ eq_refl eq_refl eq_refl).
Defined.

(** Whether the callback succeeds does not depend on the clock. *)
Lemma transformShipment_ok_always (Date_getTime : string -> Js.Number)
    (dateNow idNow dateNow' idNow' : Z) (s : RatedShipmentEntry)
    (q : RateQuote) :
  UPS.transformShipment Date_getTime dateNow idNow s = Ok q ->
  exists q', UPS.transformShipment Date_getTime dateNow' idNow' s = Ok q'.
Proof.
  unfold UPS.transformShipment.
  destruct (UPS.selectCharges s) as [ch|]; [|discriminate].
  destruct (MonetaryValue ch) as [v|]; [|discriminate].
  destruct (negb _); [discriminate|].
  destruct (Js.parseFloat v); [eauto|discriminate].
Qed.

Lemma map_throwing_first_throw {A B} (f : nat -> A -> Result B)
    (good : list A) (bad : A) (rest : list A) (e : JsError) (i : nat) :
  (forall j x, In x good -> exists y, f j x = Ok y) ->
  (forall j, f j bad = Throw e) ->
  map_throwing f i (good ++ bad :: rest) = Throw e.
Proof.
  intros Hgood Hbad. revert i. induction good as [|x good IH]; intros i; cbn.
  - now rewrite Hbad.
  - destruct (Hgood i x (or_introl eq_refl)) as [y ->].
    rewrite IH; [reflexivity|]. intros j z Hz. apply Hgood. now right.
Qed.

(** X24.  [transformResponse] gives no partial result: it fails with the
    error of the first rated shipment, in list order, that cannot be
    transformed, whatever the quotes of the shipments before it and
    whatever follows it. *)
Theorem first_bad_shipment_decides (Date_getTime : string -> Js.Number)
    (clock : nat -> Z * Z) (dateNow idNow : Z) (response : UPSRateResponse)
    (env : RateResponseEnvelope)
    (good : list RatedShipmentEntry) (bad : RatedShipmentEntry)
    (rest : list RatedShipmentEntry) (e : JsError) :
  RateResponse response = Some env ->
  UPS.responseStatusCode env = Some "1" ->
  RatedShipment env = Some (good ++ bad :: rest)%list ->
  (forall s, In s good ->
     exists q, UPS.transformShipment Date_getTime dateNow idNow s = Ok q) ->
  UPS.transformShipment Date_getTime dateNow idNow bad = Throw e ->
  UPS.transformResponse Date_getTime clock response = Throw e.
Proof.
  intros Henv Hcode Hlist Hgood Hbad. unfold UPS.transformResponse.
  rewrite Henv, Hcode, Hlist. cbn [UPS.not_success_code String.eqb negb].
  replace (UPS.not_success_code (Some "1")) with false by reflexivity.
  destruct (good ++ bad :: rest)%list eqn:E.
  - now destruct good.
  - rewrite <- E. apply map_throwing_first_throw.
    + intros j x Hx. destruct (Hgood x Hx) as [q Hq].
      exact (transformShipment_ok_always _ _ _ _ _ _ _ Hq).
    + intros j. exact (transformShipment_throws_always _ _ _ _ _ _ _ Hbad).
Qed.

Lemma first_bad_shipment_decides_witness :
  UPS.transformResponse (fun _ => Js.NaN)
    (fun i => (1000 + Z.of_nat i, 1001 + Z.of_nat i))
    (Fixtures.successEnvelope
       (Some [Fixtures.shipment "03" "Ground" "25.50" None;
              Fixtures.shipment "01" "Next Day Air" "abc" None;
              Fixtures.shipment "02" "2nd Day Air" "n/a" None]))
  = Throw (CarrierIntegrationError MALFORMED_RESPONSE
             "Invalid cost value: abc" None).
Proof.
  apply (first_bad_shipment_decides (fun _ => Js.NaN)
           (fun i => (1000 + Z.of_nat i, 1001 + Z.of_nat i)) 1000 1000
           (Fixtures.successEnvelope
              (Some [Fixtures.shipment "03" "Ground" "25.50" None;
                     Fixtures.shipment "01" "Next Day Air" "abc" None;
                     Fixtures.shipment "02" "2nd Day Air" "n/a" None])) _
           [Fixtures.shipment "03" "Ground" "25.50" None]
           (Fixtures.shipment "01" "Next Day Air" "abc" None)
           [Fixtures.shipment "02" "2nd Day Air" "n/a" None] _
           eq_refl eq_refl eq_refl).
  - intros s [<- | []]. eexists. reflexivity.
  - reflexivity.
Defined.

(** ** The adapter: the path of a successful call *)


